(** * nexcli: the [nbp] build tracker and the [imgops] command group

    A shallow embedding of the command-line logic of
    [nex-nbp/src/nex_nbp/cli.py] and [nex-imgops/src/nex_imgops/cli.py],
    followed by the properties the specification states about them.

    Conventions of the embedding:
    - a Python [str] is a [string] of ASCII characters; [lower] maps
      ['A'..'Z'] to ['a'..'z'] and leaves every other character alone;
    - an [Optional[T]] is an [option T], Python truthiness is written out;
    - every interaction with the outside world ([click.echo], the editor, a
      call of the index service or of the CI client) is appended to a trace;
      [raise] stops the computation and keeps the trace written so far;
    - the answers of the external collaborators are parameters of the
      commands that call them. *)

From Stdlib Require Import Ascii.
From stdpp Require Import gmap strings list.

(** ** Python string primitives *)

Module Py.

Definition is_upper (c : ascii) : bool :=
  ((65 <=? N_of_ascii c) && (N_of_ascii c <=? 90))%N.

Definition lower_char (c : ascii) : ascii :=
  if is_upper c then ascii_of_N (N_of_ascii c + 32) else c.

(** [s.lower()] *)
Fixpoint lower (s : string) : string :=
  match s with
  | EmptyString => EmptyString
  | String c s' => String (lower_char c) (lower s')
  end.

(** [s.replace(" ", "")] *)
Fixpoint replace_spaces (s : string) : string :=
  match s with
  | EmptyString => EmptyString
  | String c s' =>
      if Ascii.eqb c " " then replace_spaces s' else String c (replace_spaces s')
  end.

(** [s[n:]] for [0 <= n] *)
Fixpoint drop (n : nat) (s : string) : string :=
  match n, s with
  | O, _ => s
  | S _, EmptyString => EmptyString
  | S n', String _ s' => drop n' s'
  end.

(** Scan [s], whose first character sits at index [i] of the searched
    string, for the lowest position where [sub] starts. *)
Fixpoint find_scan (sub s : string) (i : Z) : Z :=
  if String.prefix sub s then i
  else match s with
       | EmptyString => (-1)%Z
       | String _ s' => find_scan sub s' (i + 1)%Z
       end.

(** [s.find(sub, start)]: the lowest index at or after [start] where [sub]
    occurs in [s], [-1] when there is none.  A negative [start] counts from
    the end and is clipped at [0], as Python slices do. *)
Definition find (s sub : string) (start : Z) : Z :=
  let n := Z.of_nat (String.length s) in
  let start := if (start <? 0)%Z then Z.max 0 (start + n) else start in
  if (n <? start)%Z then (-1)%Z
  else find_scan sub (drop (Z.to_nat start) s) start.

(** Truthiness of an [Optional[bool]] and of a [str]. *)
Definition truthy (b : option bool) : bool :=
  match b with
  | Some true => true
  | _ => false
  end.

Definition str_truthy (s : option string) : bool :=
  match s with
  | Some (String _ _) => true
  | _ => false
  end.

End Py.

(** ** The records of the index service *)

(** Modelled from the spec: [nex_bitrise_index.interface.AppEntry] is not part
    of the sources; the data model gives it an app code, a title, a repository
    URL and a CI slug. *)
Record AppEntry : Type := {
  app_code : string;
  title : string;
  repo_url : string;
  slug : string
}.

(** Modelled from the spec: [nex_bitrise_index.interface.BuildEntry] is not
    part of the sources; of its fields the commands below read the build
    number and the memo. *)
Record BuildEntry : Type := {
  build_num : Z;
  branch : option string;
  workflow : string;
  memo : string
}.

(** Modelled from the spec: [nex_nbp.git.GitInfo] is not part of the sources;
    the commands read its remote URL and its remote branch name. *)
Record GitInfo : Type := {
  remote_url : string;
  remote_name : string
}.

(** ** click: exceptions and the trace of effects *)

Module click.

Inductive exn : Type :=
| UsageError (message : string)
| KeyError (key : string).

(** What a command does to the outside world, in order. *)
Inductive event : Type :=
| Echo (message : string) (nl err : bool)
    (* click.echo(message, nl=nl, err=err) *)
| Edit (template : string)
    (* click.edit(template) *)
| Build (slug workflow_id : string) (branch : option string) (clean : bool)
    (* bitrise_client.build(slug, workflow_id, branch, clean) *)
| List_latest_builds (app_code : string) (branch : option string)
    (workflow : string) (limit : nat)
| Fetch_builds (app_code : string) (build_nums : list Z)
| Add_memo (app_code : string) (build_nums : list Z) (edit : bool)
    (memo : string).

(** A command either returns a value or raises; in both cases it leaves a
    trace. *)
Definition M (A : Type) : Type := list event * (exn + A).

Definition ret {A} (a : A) : M A := ([], inr a).

Definition raise {A} (e : exn) : M A := ([], inl e).

Definition bind {A B} (m : M A) (k : A → M B) : M B :=
  match m with
  | (out, inl e) => (out, inl e)
  | (out, inr a) => let '(out', r) := k a in (out ++ out', r)
  end.

Definition emit (e : event) : M unit := ([e], inr tt).

Definition echo (msg : string) : M unit := emit (Echo msg true false).
Definition echo_err (msg : string) : M unit := emit (Echo msg true true).
Definition echo_no_nl (msg : string) : M unit := emit (Echo msg false false).

End click.

Import click.

Notation "'let*' x ':=' m 'in' k" := (click.bind m (λ x, k))
  (at level 10, x name, m at level 100, k at level 200, only parsing).

(** [for x in xs: body], with the variables the body updates as state [s]. *)
Fixpoint for_ {A S : Type} (xs : list A) (body : A → S → M S) (s : S) : M S :=
  match xs with
  | [] => ret s
  | x :: xs' => let* s' := body x s in for_ xs' body s'
  end.

(** [for x in xs: if cond(x): return x], falling through with [None]. *)
Fixpoint for_return {A : Type} (cond : A → bool) (xs : list A) : option A :=
  match xs with
  | [] => None
  | x :: xs' => if cond x then Some x else for_return cond xs'
  end.

(** ** NBPCommandContext *)

Module NBPCommandContext.

Record t : Type := {
  git_info : option GitInfo;
  _app_name : option string;
  _branch : option string;
  _workflows : list string
}.

(** [__init__], given what [GitInfo.create()] found. *)
Definition init (git : option GitInfo) : t :=
  {| git_info := git; _app_name := None; _branch := None; _workflows := [] |}.

Definition set_app_name (self : t) (app_name : option string) : t :=
  {| git_info := git_info self; _app_name := app_name;
     _branch := _branch self; _workflows := _workflows self |}.

Definition _find_app_entry_by_git (apps : list AppEntry) (git_info : GitInfo)
  : option AppEntry :=
  let remote_url := remote_url git_info in
  for_return (λ app, String.eqb (repo_url app) remote_url) apps.

(** The inner loop of the last stage: [pos] is the index of the previous
    character's match in [title]; the [else] of the [for] is the empty
    case. *)
Fixpoint same_sequence (title app_name : string) (pos : Z) : bool :=
  match app_name with
  | EmptyString => true
  | String ch rest =>
      let pos := Py.find title (String ch EmptyString) (pos + 1) in
      if (pos =? -1)%Z then false else same_sequence title rest pos
  end.

(** The body of the last loop over the apps. *)
Definition has_same_sequence (app_name : string) (app : AppEntry) : bool :=
  let title := Py.replace_spaces (Py.lower (title app)) in
  same_sequence title app_name (-1).

Definition _find_app_entry_by_app_name (apps : list AppEntry)
  (app_name : string) : option AppEntry :=
  let app_name := Py.lower app_name in
  match for_return
          (λ app, String.eqb (Py.lower (app_code app)) app_name) apps with
  | Some app => Some app
  | None =>
  match for_return
          (λ app, negb (Py.find (Py.lower (title app)) app_name 0 =? -1)%Z)
          apps with
  | Some app => Some app
  | None =>
  let app_name := Py.replace_spaces app_name in
  match for_return
          (λ app, negb (Py.find (Py.replace_spaces (Py.lower (title app)))
                          app_name 0 =? -1)%Z)
          apps with
  | Some app => Some app
  | None =>
  for_return (has_same_sequence app_name) apps
  end end end.

Definition _find_app_entry (apps : list AppEntry)
  (git_info : option GitInfo) (app_name : option string) : M AppEntry :=
  let* app_entry :=
    match app_name with
    | Some app_name =>
        match _find_app_entry_by_app_name apps app_name with
        | None =>
            raise (UsageError
              ("Could not find app on bitrise matching " +:+ app_name))
        | Some app_entry => ret app_entry
        end
    | None =>
        match git_info with
        | None =>
            raise (UsageError
              "Please run inside a git repository to use auto app discovery.")
        | Some git_info =>
            match _find_app_entry_by_git apps git_info with
            | None =>
                raise (UsageError
                  ("Could not find app on bitrise matching git url "
                   +:+ remote_url git_info))
            | Some app_entry => ret app_entry
            end
        end
    end in
  let* _ := echo ("Selected App: " +:+ app_code app_entry) in
  ret app_entry.

(** The [app_entry] property, given the answer of [fetch_all_apps()]. *)
Definition app_entry (self : t) (all_apps : list AppEntry) : M AppEntry :=
  _find_app_entry all_apps (git_info self) (_app_name self).

Definition initialize_branch (self : t) (branch : option string)
  (use_git_branch : bool) : M t :=
  let set b := {| git_info := git_info self; _app_name := _app_name self;
                  _branch := b; _workflows := _workflows self |} in
  if Py.str_truthy branch then ret (set branch)
  else if use_git_branch then
    match git_info self with
    | None =>
        raise (UsageError "Auto git branch is only valid inside a git repo.")
    | Some git => ret (set (Some (remote_name git)))
    end
  else ret (set None).

Definition _compute_suffixes (staging production : option bool)
  : M (list string) :=
  let staging :=
    if bool_decide (staging = None) && negb (Py.truthy production)
    then Some true else staging in
  let suffixes := [] in
  let suffixes :=
    if Py.truthy staging then suffixes ++ ["stag"] else suffixes in
  let suffixes :=
    if Py.truthy production then suffixes ++ ["prod"] else suffixes in
  match suffixes with
  | [] => raise (UsageError "No staging nor production, bailing out.")
  | _ => ret suffixes
  end.

Definition _WORKFLOW_MAP : gmap string string :=
  list_to_map [
    ("olympia#-#stag", "build_olympia_apk_staging");
    ("olympia#-#prod", "build_olympia_apk_production");
    ("sk#-#stag", "build_sk_apk_staging");
    ("sk#-#prod", "build_sk_apk_production");
    ("sky#-#stag", "build_android_apk_sky_beta_staging");
    ("sky#-#prod", "build_android_apk_sky_beta");
    ("retail#-#stag", "build_olympia_retail_demo_stag");
    ("retail#-#prod", "build_olympia_retail_demo_prod")
  ].

(** [f"{target}#-#{suffix}"] *)
Definition workflow_key (target suffix : string) : string :=
  target +:+ "#-#" +:+ suffix.

(** The body of the two nested loops: [workflows] is the list the context
    holds, appended to in place. *)
Definition resolve_workflow (target suffix : string)
  (workflows : list string) : M (list string) :=
  let key := workflow_key target suffix in
  match _WORKFLOW_MAP !! key with
  | None =>
      let* _ := echo_err
        ("Cannot identify workflow id for " +:+ target +:+ " " +:+ suffix) in
      ret workflows
  | Some workflow_id => ret (workflows ++ [workflow_id])
  end.

Definition initialize_workflows (self : t) (targets : list string)
  (staging production : option bool) : M t :=
  let* suffixes := _compute_suffixes staging production in
  let workflows := _workflows self in
  let* workflows :=
    for_ targets (λ target workflows,
      for_ suffixes (λ suffix workflows,
        resolve_workflow target suffix workflows) workflows) workflows in
  ret {| git_info := git_info self; _app_name := _app_name self;
         _branch := _branch self; _workflows := workflows |}.

End NBPCommandContext.

Import NBPCommandContext.

(** ** The [nbp] commands *)

Section commands.

(** The answers of the collaborators.  A query that a command may repeat
    takes the number of earlier calls of that query in the command, so the
    service is free to answer differently each time. *)

(** The body of a trigger response: [str(response)] and [response[key]]
    (rendered as text, [None] when the key is missing). *)
Context {Response : Type}.
Variable response_str : Response → string.
Variable response_get : Response → string → option string.

(** [BitriseClient().build(slug, workflow_id, branch, clean)] *)
Variable build :
  nat → string → string → option string → bool → Z * string * Response.
(** [bitrise_index_client.list_latest_builds(app_code, branch, workflow, limit)] *)
Variable list_latest_builds :
  nat → string → option string → string → nat → list BuildEntry.
(** [bitrise_index_client.fetch_builds(app_code, build_nums)] *)
Variable fetch_builds : string → list Z → list BuildEntry.
(** [click.edit(template)]: [None] when the editor is left without saving. *)
Variable click_edit : string → option string.

(** [response[key]] *)
Definition getitem (response : Response) (key : string) : M string :=
  match response_get response key with
  | Some v => ret v
  | None => raise (KeyError key)
  end.

(** The [nbp] group callback. *)
Definition nbp (git : option GitInfo) (app_name : option string) : t :=
  set_app_name (init git) app_name.

(** One iteration of the loop of [trigger]; [calls] counts the builds
    requested so far. *)
Definition trigger_workflow (app_entry : AppEntry) (branch : option string)
  (clean : bool) (workflow_id : string) (calls : nat) : M nat :=
  let* _ := echo_no_nl ("Triggering " +:+ workflow_id +:+ " ... ") in
  let* _ := emit (Build (slug app_entry) workflow_id branch clean) in
  let '(status_code, reason, response) :=
    build calls (slug app_entry) workflow_id branch clean in
  if negb (status_code =? 201)%Z then
    let* _ := echo "FAILED" in
    let* _ := echo_err ("REASON: " +:+ reason) in
    let* _ := echo_err ("RESPONSE: " +:+ response_str response) in
    ret (S calls)
  else
    let* build_number := getitem response "build_number" in
    let* _ := echo ("SUCCESS: " +:+ build_number) in
    let* build_url := getitem response "build_url" in
    let* _ := echo ("    " +:+ build_url) in
    ret (S calls).

Definition trigger_workflows (app_entry : AppEntry) (branch : option string)
  (clean : bool) (workflows : list string) (calls : nat) : M nat :=
  for_ workflows (trigger_workflow app_entry branch clean) calls.

Definition trigger (self : t) (all_apps : list AppEntry)
  (branch : option string) (staging production : option bool)
  (targets : list string) (clean : bool) : M unit :=
  let* app_entry := app_entry self all_apps in
  let* self := initialize_branch self branch true in
  let* self := initialize_workflows self targets staging production in
  let* _ := trigger_workflows app_entry (_branch self) clean
              (_workflows self) 0 in
  ret tt.

(** The [builds] group callback. *)
Definition builds (self : t) (branch : option string) (use_git_branch : bool)
  (staging production : option bool) (targets : list string) : M t :=
  let* self := initialize_branch self branch use_git_branch in
  initialize_workflows self targets staging production.

(** The inner loop of [builds_apk] over the entries one workflow has. *)
Definition add_new_builds (entries : list BuildEntry)
  (acc : list BuildEntry * gset Z) : M (list BuildEntry * gset Z) :=
  for_ entries (λ entry acc,
    let '(build_entries, build_num_set) := acc in
    if decide (build_num entry ∈ build_num_set) then ret acc
    else ret (build_entries ++ [entry], build_num_set ∪ {[build_num entry]}))
    acc.

(** The outer loop of [builds_apk]; the state is the number of listings
    requested so far, [build_entries] and [build_num_set]. *)
Definition latest_builds (app_entry : AppEntry) (git_branch : option string)
  (workflows : list string) (st : nat * (list BuildEntry * gset Z))
  : M (nat * (list BuildEntry * gset Z)) :=
  for_ workflows (λ workflow st,
    let* _ := emit (List_latest_builds (app_code app_entry) git_branch
                      workflow 1) in
    let entries :=
      list_latest_builds st.1 (app_code app_entry) git_branch workflow 1 in
    let* acc := add_new_builds entries st.2 in
    ret (S st.1, acc)) st.

(** [builds_apk] up to the download loop: the list [build_entries] the
    downloads then run over. *)
Definition builds_apk_entries (self : t) (app_entry : AppEntry)
  (build_nums : list Z) : M (list BuildEntry) :=
  let build_entries := [] in
  match build_nums with
  | [] =>
      let build_num_set : gset Z := ∅ in
      let git_branch := _branch self in
      let workflows := _workflows self in
      let* st := latest_builds app_entry git_branch workflows
                   (0, (build_entries, build_num_set)) in
      ret st.2.1
  | _ =>
      let request := elements (list_to_set build_nums : gset Z) in
      let* _ := emit (Fetch_builds (app_code app_entry) request) in
      ret (build_entries ++ fetch_builds (app_code app_entry) request)
  end.

(** [builds_memo] once the app is resolved. *)
Definition memo_builds (app_entry : AppEntry) (build : list Z) (edit : bool)
  : M unit :=
  let template := "" in
  let* template :=
    if edit then
      let* _ := emit (Fetch_builds (app_code app_entry) build) in
      let builds := fetch_builds (app_code app_entry) build in
      match builds with
      | [] => ret template
      | first :: _ => ret (memo first)
      end
    else ret template in
  let* _ := emit (Edit template) in
  let memo := click_edit template in
  match memo with
  | Some (String _ _ as memo) =>
      emit (Add_memo (app_code app_entry) build edit memo)
  | _ => echo_err "No memo specified"
  end.


(** *** What the commands are expected to leave in the trace *)

(** What [trigger] reports for one workflow: the announcement and the
    request, then the failure (status line, reason, response body) or the
    success (build number, build URL). *)
Definition trigger_report (app_entry : AppEntry) (branch : option string)
  (clean : bool) (calls : nat) (workflow_id : string) : list event :=
  let '(status_code, reason, response) :=
    build calls (slug app_entry) workflow_id branch clean in
  [Echo ("Triggering " +:+ workflow_id +:+ " ... ") false false;
   Build (slug app_entry) workflow_id branch clean] ++
  if (status_code =? 201)%Z then
    [Echo ("SUCCESS: "
           +:+ default "" (response_get response "build_number")) true false;
     Echo ("    " +:+ default "" (response_get response "build_url"))
       true false]
  else
    [Echo "FAILED" true false;
     Echo ("REASON: " +:+ reason) true true;
     Echo ("RESPONSE: " +:+ response_str response) true true].

(** The contract of the CI endpoint: the body of a 201 answer exposes
    [build_number] and [build_url]. *)
Definition success_exposes_build : Prop :=
  ∀ calls slug workflow_id branch clean,
    (build calls slug workflow_id branch clean).1.1 = 201%Z →
    is_Some (response_get
               (build calls slug workflow_id branch clean).2 "build_number") ∧
    is_Some (response_get
               (build calls slug workflow_id branch clean).2 "build_url").

(** The template the editor is opened with. *)
Definition memo_template (app_entry : AppEntry) (build : list Z)
  (edit : bool) : string :=
  match edit, fetch_builds (app_code app_entry) build with
  | true, first :: _ => memo first
  | _, _ => ""
  end.

End commands.

(** [acc] is a state of the loops of [builds_apk]: the entries collected so
    far have pairwise different build numbers, and the set holds exactly
    those numbers. *)
Definition distinct_builds (acc : list BuildEntry * gset Z) : Prop :=
  NoDup (build_num <$> acc.1) ∧ ∀ n, n ∈ acc.2 ↔ n ∈ build_num <$> acc.1.

(** Sample entries and collaborators. *)
Definition sk_entry : AppEntry :=
  {| app_code := "sk"; title := "Sky App"; repo_url := ""; slug := "" |}.
Definition sky_entry : AppEntry :=
  {| app_code := "sky"; title := "SK App"; repo_url := ""; slug := "" |}.
Definition retail_entry : AppEntry :=
  {| app_code := "retail"; title := "Olympia Retail Demo";
     repo_url := ""; slug := "" |}.

(** A CI endpoint that refuses the first request and accepts the later
    ones. *)
Definition sample_build (calls : nat) (slug workflow_id : string)
  (branch : option string) (clean : bool) : Z * string * gmap string string :=
  match calls with
  | 0 => (500%Z, "Internal Server Error", ∅)
  | S _ =>
      (201%Z, "Created",
       {[ "build_number" := "42";
          "build_url" := "https://app.bitrise.io/build/42" ]})
  end.

(** ** The image tool's command group *)

Module imgops.

(** The operations of [Transformer] the subcommands are bound to. *)
Inductive operation : Type :=
| load | save | clone | resize | pad | extract_alpha
| dilate | erode | blur | subtract.

(** [click.Group]: the commands by registered name. *)
Record Group : Type := { commands : gmap string operation }.

Definition Group_get_command (self : Group) (cmd_name : string)
  : option operation :=
  commands self !! cmd_name.

Record AliasedGroup : Type := {
  group : Group;
  _alias_map : gmap string string
}.

Definition get_command (self : AliasedGroup) (cmd_name : string)
  : option operation :=
  let cmd_name := default cmd_name (_alias_map self !! cmd_name) in
  Group_get_command (group self) cmd_name.

(** The group [cli] with its ten subcommands; only [extract_alpha] is
    registered under a name of its own choosing. *)
Definition cli : AliasedGroup := {|
  group := {| commands := list_to_map [
    ("load", load); ("save", save); ("clone", clone); ("resize", resize);
    ("pad", pad); ("alpha", extract_alpha); ("dilate", dilate);
    ("erode", erode); ("blur", blur); ("subtract", subtract) ] |};
  _alias_map := {[ "extract-alpha" := "alpha" ]}
|}.

End imgops.

(** ** The matching stages in the words of the specification *)

(** [sub] occurs in [s] as a contiguous run of characters. *)
Definition is_substring (sub s : string) : Prop :=
  ∃ pre post, s = pre +:+ sub +:+ post.

(** The characters of the first string occur in the second, in order, not
    necessarily next to each other. *)
Inductive subsequence : string → string → Prop :=
| subsequence_empty s : subsequence EmptyString s
| subsequence_take c a s :
    subsequence a s → subsequence (String c a) (String c s)
| subsequence_skip c a s :
    subsequence a s → subsequence a (String c s).

(** [c] is one of the characters of [s]. *)
Fixpoint occurs (c : ascii) (s : string) : Prop :=
  match s with
  | EmptyString => False
  | String c' s' => c' = c ∨ occurs c s'
  end.

Inductive stage : Type :=
| Exact_code | Title_substring | Spaceless_substring | Subsequence_test.

Definition stage_rank (st : stage) : nat :=
  match st with
  | Exact_code => 0
  | Title_substring => 1
  | Spaceless_substring => 2
  | Subsequence_test => 3
  end.

Definition stage_matches (st : stage) (app_name : string) (app : AppEntry)
  : Prop :=
  match st with
  | Exact_code => Py.lower (app_code app) = Py.lower app_name
  | Title_substring =>
      is_substring (Py.lower app_name) (Py.lower (title app))
  | Spaceless_substring =>
      is_substring (Py.replace_spaces (Py.lower app_name))
        (Py.replace_spaces (Py.lower (title app)))
  | Subsequence_test =>
      subsequence (Py.replace_spaces (Py.lower app_name))
        (Py.replace_spaces (Py.lower (title app)))
  end.

(** [a] is the first element of [xs], in list order, that satisfies [P]. *)
Definition first_match {A : Type} (P : A → Prop) (xs : list A) (a : A) : Prop :=
  ∃ l1 l2, xs = l1 ++ a :: l2 ∧ P a ∧ Forall (λ x, ¬ P x) l1.

(** The staged resolution: the result is the first match of the earliest
    stage that matches anything, and there is no result only when no stage
    matches any entry. *)
Definition staged_resolution (apps : list AppEntry) (app_name : string)
  (r : option AppEntry) : Prop :=
  match r with
  | Some a =>
      ∃ st, first_match (stage_matches st app_name) apps a ∧
            ∀ st', stage_rank st' < stage_rank st →
                   Forall (λ x, ¬ stage_matches st' app_name x) apps
  | None => ∀ st, Forall (λ x, ¬ stage_matches st app_name x) apps
  end.

(** ** Workflow selection in the words of the specification *)

(** The (target, suffix) pairs in the order the nested loops visit them. *)
Definition target_suffix_pairs (targets suffixes : list string)
  : list (string * string) :=
  flat_map (λ target, map (λ suffix, (target, suffix)) suffixes) targets.

(** The workflow of a pair the table knows. *)
Definition resolved (p : string * string) : option string :=
  _WORKFLOW_MAP !! workflow_key p.1 p.2.

(** The warning for a pair the table does not know. *)
Definition warned (p : string * string) : option event :=
  match _WORKFLOW_MAP !! workflow_key p.1 p.2 with
  | Some _ => None
  | None =>
      Some (Echo ("Cannot identify workflow id for " +:+ p.1 +:+ " " +:+ p.2)
              true true)
  end.

Definition with_workflows (self : t) (workflows : list string) : t :=
  {| git_info := git_info self; _app_name := _app_name self;
     _branch := _branch self; _workflows := workflows |}.

(** ** Text of several lines *)

Module PyText.

(** The line feed. *)
Definition LF : ascii := "010"%char.

(** [s.split(sep)] for a separator [sep] of one character: the pieces
    between the separators, the empty ones included. *)
Fixpoint split (sep : ascii) (s : string) : list string :=
  match s with
  | EmptyString => [EmptyString]
  | String c s' =>
      if Ascii.eqb c sep then EmptyString :: split sep s'
      else match split sep s' with
           | [] => [String c EmptyString]
           | piece :: pieces => String c piece :: pieces
           end
  end.

(** [sep.join(pieces)] *)
Fixpoint join (sep : string) (pieces : list string) : string :=
  match pieces with
  | [] => EmptyString
  | [piece] => piece
  | piece :: pieces' => piece +:+ sep +:+ join sep pieces'
  end.

End PyText.

(** The memo block of [build_details]: what is handed to [print], nothing for
    an empty memo. *)
Definition build_details_memo (memo : string) : list string :=
  if Py.str_truthy (Some memo) then
    let separator := String PyText.LF "           " in
    let lines := PyText.split PyText.LF memo in
    ["Memo:      " +:+ PyText.join separator lines]
  else [].

(** ** The download loop of [builds_apk] *)

Module download.

(** Modelled from the spec: [ArtifactEntry] of the index service is not part
    of the sources; the loop reads the artifact's registered name, its
    download URL and its declared size. *)
Record ArtifactEntry : Type := {
  name : string;
  download_url : string;
  byte_size : Z
}.

(** What [requests.get(url, stream=True)] answers, as far as the loop looks
    at it: whether [raise_for_status()] returns, the chunks [iter_content]
    yields, and whether the iteration then raises instead of ending. *)
Record Response : Type := {
  status_ok : bool;
  chunks : list (list Byte.byte);
  interrupted : bool
}.

Inductive failure : Type :=
| HTTPError (url : string)
| ChunkedEncodingError (url : string).

(** The files on disk, the lines echoed, and the progress bars that were
    shown, each with its [total] and its final count. *)
Record state : Type := {
  files : gmap string (list Byte.byte);
  echoed : list event;
  bars : list (Z * Z)
}.

Section loop.

(** [bitrise_index_client.fetch_apk(app_code, build_num=...)] *)
Variable fetch_apk : string → Z → ArtifactEntry.
(** [requests.get(url, stream=True)]; the number counts the earlier requests. *)
Variable http_get : nat → string → Response.
(** [os.path.join] *)
Variable path_join : string → string → string.

(** The innermost loop body: [if chunk: file.write(chunk);
    pbar.update(len(chunk))], on the bytes written so far and the count of the
    bar. *)
Definition write_chunk (st : list Byte.byte * Z) (chunk : list Byte.byte)
  : list Byte.byte * Z :=
  match chunk with
  | [] => st
  | _ :: _ => (st.1 ++ chunk, (st.2 + Z.of_nat (length chunk))%Z)
  end.

Definition output_file (output : string) (app_code : string)
  (build_entry : BuildEntry) : string :=
  path_join output (name (fetch_apk app_code (build_num build_entry))).

(** One iteration of the loop over [build_entries].  The file is opened with
    mode "wb", which creates or empties it, and holds what was written when
    the [with] block is left, normally or not. *)
Definition download_one (calls : nat) (output app_code : string)
  (build_entry : BuildEntry) (st : state) : state * option failure :=
  let artifact_entry := fetch_apk app_code (build_num build_entry) in
  let output_file := path_join output (name artifact_entry) in
  let echoed :=
    echoed st ++
    [Echo ("Downloading to " +:+ output_file) true false;
     Echo ("Download URL: " +:+ download_url artifact_entry) true false] in
  let response := http_get calls (download_url artifact_entry) in
  if negb (status_ok response) then
    ({| files := files st; echoed := echoed; bars := bars st |},
     Some (HTTPError (download_url artifact_entry)))
  else
    let written := foldl write_chunk ([], 0%Z) (chunks response) in
    let st' := {| files := <[output_file := written.1]> (files st);
                  echoed := echoed;
                  bars := bars st ++ [(byte_size artifact_entry, written.2)] |} in
    if interrupted response then
      (st', Some (ChunkedEncodingError (download_url artifact_entry)))
    else (st', None).

Fixpoint download_all (calls : nat) (output app_code : string)
  (build_entries : list BuildEntry) (st : state) : state * option failure :=
  match build_entries with
  | [] => (st, None)
  | build_entry :: build_entries' =>
      match download_one calls output app_code build_entry st with
      | (st', Some e) => (st', Some e)
      | (st', None) =>
          download_all (S calls) output app_code build_entries' st'
      end
  end.

End loop.

End download.

(** ** Further notions used in the properties *)

(** The event is a request to the CI endpoint. *)
Definition is_build (e : event) : bool :=
  match e with
  | Build _ _ _ _ => true
  | _ => false
  end.

(** The event is a line written with [click.echo]. *)
Definition is_echo (e : event) : bool :=
  match e with
  | Echo _ _ _ => true
  | _ => false
  end.

(** The character does not occur in the string. *)
Definition free_of (c : ascii) (s : string) : Prop := ¬ occurs c s.

(** What the index service lists for the workflows in turn, when the first
    listing is request number [calls]. *)
Fixpoint listed_builds
  (list_latest_builds :
     nat → string → option string → string → nat → list BuildEntry)
  (app_code : string) (git_branch : option string) (workflows : list string)
  (calls : nat) : list BuildEntry :=
  match workflows with
  | [] => []
  | workflow :: workflows' =>
      list_latest_builds calls app_code git_branch workflow 1 ++
      listed_builds list_latest_builds app_code git_branch workflows' (S calls)
  end.

(** [acc] is what the loops of [builds_apk] hold after the entries [listed]:
    the collected entries are taken from [listed] in order, the set holds
    their build numbers, every listed build number is collected, and each
    collected entry is the first one listed with its build number. *)
Definition keeps_first (listed : list BuildEntry)
  (acc : list BuildEntry * gset Z) : Prop :=
  acc.1 `sublist_of` listed ∧
  (∀ n, n ∈ acc.2 ↔ n ∈ build_num <$> acc.1) ∧
  (∀ n, n ∈ build_num <$> listed → n ∈ build_num <$> acc.1) ∧
  Forall (λ e, first_match (λ x, build_num x = build_num e) listed e) acc.1.

(** Sample builds, artifacts and answers of the artifact host: the first
    request is answered in three chunks, one of them empty; [sample_http_get]
    refuses every later request, [sample_http_ok] answers it in one chunk. *)
Definition build_one : BuildEntry :=
  {| build_num := 1; branch := None; workflow := "build_sk_apk_staging";
     memo := "" |}.
Definition build_two : BuildEntry :=
  {| build_num := 2; branch := None; workflow := "build_sk_apk_production";
     memo := "" |}.

Definition sample_fetch_apk (app_code : string) (build_num : Z)
  : download.ArtifactEntry :=
  if (build_num =? 1)%Z then
    {| download.name := "one.apk";
       download.download_url := "https://host/one";
       download.byte_size := 3 |}
  else
    {| download.name := "two.apk";
       download.download_url := "https://host/two";
       download.byte_size := 5 |}.

Definition sample_http_get (calls : nat) (url : string) : download.Response :=
  match calls with
  | 0 => {| download.status_ok := true;
            download.chunks := [[Byte.x01; Byte.x02]; []; [Byte.x03]];
            download.interrupted := false |}
  | S _ => {| download.status_ok := false;
              download.chunks := [];
              download.interrupted := false |}
  end.

Definition sample_http_ok (calls : nat) (url : string) : download.Response :=
  match calls with
  | 0 => {| download.status_ok := true;
            download.chunks := [[Byte.x01; Byte.x02]; []; [Byte.x03]];
            download.interrupted := false |}
  | S _ => {| download.status_ok := true;
              download.chunks := [[Byte.x04]];
              download.interrupted := false |}
  end.

Definition sample_path_join (output name : string) : string :=
  output +:+ "/" +:+ name.

Definition sample_disk : download.state :=
  {| download.files := {[ "notes.txt" := [Byte.x2a] ]};
     download.echoed := [];
     download.bars := [] |}.

(** The four targets the command line accepts. *)
Definition known_targets : list string := ["olympia"; "sk"; "sky"; "retail"].

(** The names the image tool dispatches. *)
Definition dispatched_names : list string :=
  ["load"; "save"; "clone"; "resize"; "pad"; "alpha"; "extract-alpha";
   "dilate"; "erode"; "blur"; "subtract"].

(** * Properties *)

(** ** Loops *)

Lemma bind_returned {A B} out (a : A) (k : A → M B) :
  bind (out, inr a) k = (out ++ (k a).1, (k a).2).
Proof. simpl. by destruct (k a). Qed.

Lemma for_return_Some {A} (cond : A → bool) xs a :
  for_return cond xs = Some a ↔
  ∃ l1 l2, xs = l1 ++ a :: l2 ∧ cond a = true ∧
           Forall (λ x, cond x = false) l1.
Proof.
  induction xs as [|x xs IH]; simpl.
  - split; [done|]. intros (l1 & l2 & E & _). by destruct l1.
  - destruct (cond x) eqn:Hx.
    + split.
      * intros [= <-]. exists [], xs. by repeat split.
      * intros (l1 & l2 & E & Ha & Hl1). destruct l1 as [|y l1]; simpl in E.
        -- congruence.
        -- injection E as -> ->. inversion Hl1; congruence.
    + rewrite IH. split.
      * intros (l1 & l2 & -> & Ha & Hl1). exists (x :: l1), l2.
        repeat split; [done|]. by constructor.
      * intros (l1 & l2 & E & Ha & Hl1). destruct l1 as [|y l1]; simpl in E.
        -- injection E as -> ->. congruence.
        -- injection E as -> ->. exists l1, l2. inversion Hl1; by subst.
Qed.

Lemma for_return_None {A} (cond : A → bool) xs :
  for_return cond xs = None ↔ Forall (λ x, cond x = false) xs.
Proof.
  induction xs as [|x xs IH]; simpl.
  - split; [constructor | done].
  - destruct (cond x) eqn:Hx.
    + split; [done|]. inversion 1; congruence.
    + rewrite IH. split; [by constructor | by inversion 1].
Qed.

(** A loop that returns the first element passing a boolean test finds the
    first match of the property the test decides. *)
Lemma for_return_first_match {A} (cond : A → bool) (P : A → Prop) xs :
  (∀ x, cond x = true ↔ P x) →
  match for_return cond xs with
  | Some a => first_match P xs a
  | None => Forall (λ x, ¬ P x) xs
  end.
Proof.
  intros Hdec.
  assert (Hneg : ∀ l, Forall (λ x, cond x = false) l → Forall (λ x, ¬ P x) l).
  { intros l Hl. eapply Forall_impl; [exact Hl|].
    intros x Hx HP. apply Hdec in HP. congruence. }
  destruct (for_return cond xs) as [a|] eqn:E.
  - apply for_return_Some in E as (l1 & l2 & -> & Ha & Hl1).
    exists l1, l2. repeat split; [by apply Hdec | by apply Hneg].
  - apply for_return_None in E. by apply Hneg.
Qed.

(** ** Strings *)

Section strings.

Implicit Types (s sub pre post : string) (c : ascii).

#[local] Arguments String.append !_ _ / : simpl nomatch.

Lemma append_empty_r s : s +:+ "" = s.
Proof. induction s; simpl; congruence. Qed.

Lemma append_assoc s1 s2 s3 : (s1 +:+ s2) +:+ s3 = s1 +:+ (s2 +:+ s3).
Proof. induction s1; simpl; congruence. Qed.

Lemma prefix_empty s : String.prefix "" s = true.
Proof. by destruct s. Qed.

Lemma prefix_cons c sub c' s :
  String.prefix (String c sub) (String c' s) =
  if decide (c = c') then String.prefix sub s else false.
Proof. simpl. destruct (ascii_dec c c'); by case_decide. Qed.

Lemma prefix_iff sub s :
  String.prefix sub s = true ↔ ∃ post, s = sub +:+ post.
Proof.
  revert s. induction sub as [|c sub IH]; intros s.
  - rewrite prefix_empty. split; [|done]. by exists s.
  - destruct s as [|c' s].
    + simpl. split; [done|]. by intros [post ?].
    + rewrite prefix_cons. case_decide as Hc.
      * subst c'. rewrite IH. split.
        -- intros [post ->]. by exists post.
        -- intros [post [= ->]]. by exists post.
      * split; [done|]. intros [post [= ? _]]. done.
Qed.

Lemma find_scan_substring sub s i :
  (0 ≤ i)%Z → Py.find_scan sub s i ≠ (-1)%Z ↔ is_substring sub s.
Proof.
  revert i. induction s as [|c s IH]; intros i Hi.
  - cbn [Py.find_scan]. destruct (String.prefix sub "") eqn:Hp.
    + split; [|lia]. intros _. apply prefix_iff in Hp as [post Hp].
      exists "", post. done.
    + split; [done|]. intros (pre & post & E). destruct pre; [|done].
      simpl in E. assert (String.prefix sub "" = true); [|congruence].
      apply prefix_iff. eauto.
  - cbn [Py.find_scan]. destruct (String.prefix sub (String c s)) eqn:Hp.
    + split; [|lia]. intros _. apply prefix_iff in Hp as [post Hp].
      exists "", post. done.
    + rewrite IH by lia. split.
      * intros (pre & post & ->). by exists (String c pre), post.
      * intros (pre & post & E). destruct pre as [|c' pre]; simpl in E.
        -- assert (String.prefix sub (String c s) = true); [|congruence].
           apply prefix_iff. eauto.
        -- injection E as -> ->. by exists pre, post.
Qed.

(** [s.find(sub) != -1] says that [sub] is a substring of [s]. *)
Lemma find_substring s sub :
  negb (Py.find s sub 0 =? -1)%Z = true ↔ is_substring sub s.
Proof.
  unfold Py.find. simpl.
  rewrite (proj2 (Z.ltb_ge _ _)) by lia.
  rewrite negb_true_iff, Z.eqb_neq. by apply find_scan_substring.
Qed.

Lemma find_scan_char c s i :
  (0 ≤ i)%Z →
  (Py.find_scan (String c "") s i = (-1)%Z ∧ ¬ occurs c s) ∨
  (∃ pre post, s = pre +:+ String c post ∧ ¬ occurs c pre ∧
     Py.find_scan (String c "") s i = (i + Z.of_nat (String.length pre))%Z).
Proof.
  revert i. induction s as [|c' s IH]; intros i Hi.
  - left. simpl. tauto.
  - cbn [Py.find_scan]. rewrite prefix_cons, prefix_empty.
    case_decide as Hc.
    + right. exists "", s. subst. simpl. repeat split; [tauto | lia].
    + destruct (IH (i + 1)%Z) as [[E Hno]|(pre & post & -> & Hno & E)];
        [lia| |].
      * left. split; [done|]. simpl. intros [?|?]; [congruence | done].
      * right. exists (String c' pre), post. simpl.
        repeat split; [|lia]. intros [?|?]; [congruence | done].
Qed.

Lemma drop_empty n : Py.drop n "" = "".
Proof. by destruct n. Qed.

Lemma drop_ge n s : String.length s ≤ n → Py.drop n s = "".
Proof.
  revert n. induction s as [|c s IH]; intros n Hn.
  - apply drop_empty.
  - destruct n; simpl in *; [lia|]. apply IH. lia.
Qed.

Lemma drop_drop a b s : Py.drop b (Py.drop a s) = Py.drop (a + b) s.
Proof.
  revert s. induction a as [|a IH]; intros s; [done|].
  destruct s; simpl; [apply drop_empty | apply IH].
Qed.

Lemma drop_append pre s : Py.drop (String.length pre) (pre +:+ s) = s.
Proof. induction pre; simpl; congruence. Qed.

Lemma subsequence_tail c a s : subsequence (String c a) s → subsequence a s.
Proof.
  induction s as [|c' s IH]; inversion 1; subst.
  - by apply subsequence_skip.
  - apply subsequence_skip. by apply IH.
Qed.

Lemma subsequence_append_l pre a s :
  subsequence a s → subsequence a (pre +:+ s).
Proof. intros H. induction pre; simpl; [done|]. by apply subsequence_skip. Qed.

Lemma subsequence_occurs c a s : subsequence (String c a) s → occurs c s.
Proof.
  induction s as [|c' s IH]; inversion 1; subst; simpl; [by left|].
  right. by apply IH.
Qed.

(** Matching a character at its first occurrence loses no subsequence. *)
Lemma subsequence_first_occurrence c a pre post :
  ¬ occurs c pre →
  subsequence (String c a) (pre +:+ String c post) ↔ subsequence a post.
Proof.
  intros Hno. split.
  - induction pre as [|c' pre IH]; simpl in *.
    + inversion 1; subst; [done|]. by eapply subsequence_tail.
    + inversion 1; subst; [tauto|]. apply IH; [tauto | done].
  - intros H. apply subsequence_append_l. by apply subsequence_take.
Qed.

(** The inner loop of the last stage, started after position [pos],
    decides whether the name is a subsequence of the rest of the title. *)
Lemma same_sequence_drop title app_name pos :
  (-1 ≤ pos)%Z →
  same_sequence title app_name pos = true ↔
  subsequence app_name (Py.drop (Z.to_nat (pos + 1)) title).
Proof.
  revert pos. induction app_name as [|ch rest IH]; intros pos Hpos.
  - simpl. split; [constructor | done].
  - cbn [same_sequence]. unfold Py.find.
    rewrite (proj2 (Z.ltb_ge (pos + 1) 0)) by lia.
    destruct (Z.of_nat (String.length title) <? pos + 1)%Z eqn:Hlen.
    + simpl. rewrite drop_ge by lia. split; [done | inversion 1].
    + destruct (find_scan_char ch (Py.drop (Z.to_nat (pos + 1)) title)
                  (pos + 1)%Z) as [[E Hno]|(pre & post & Hd & Hno & E)];
        [lia| |]; rewrite E.
      * simpl. split; [done|]. intros H. by apply subsequence_occurs in H.
      * rewrite (proj2 (Z.eqb_neq _ (-1))) by lia.
        rewrite IH by lia.
        replace (Z.to_nat (pos + 1 + Z.of_nat (String.length pre) + 1))
          with (Z.to_nat (pos + 1) + (String.length pre + 1)) by lia.
        rewrite <- drop_drop, Hd, <- drop_drop, drop_append. simpl.
        by rewrite subsequence_first_occurrence.
Qed.

Lemma same_sequence_subsequence title app_name :
  same_sequence title app_name (-1) = true ↔ subsequence app_name title.
Proof. by rewrite same_sequence_drop. Qed.

End strings.

(** ** App resolution *)

Lemma earlier_stage_none st app_name apps :
  (∀ st', stage_rank st' < stage_rank st →
          Forall (λ x, ¬ stage_matches st' app_name x) apps) →
  Forall (λ x, ¬ stage_matches st app_name x) apps →
  ∀ st', stage_rank st' < S (stage_rank st) →
         Forall (λ x, ¬ stage_matches st' app_name x) apps.
Proof.
  intros Hlt Heq st' Hst'.
  destruct (decide (stage_rank st' = stage_rank st)) as [E|NE].
  - by destruct st, st'.
  - apply Hlt. lia.
Qed.

(** C1: app-name resolution runs the four stages in order (exact app code,
    substring of the title, substring with the spaces removed, subsequence);
    a stage is tried only when every earlier stage matched no entry, and the
    first match of the stage in list order is returned; resolving "SK"
    against the entries sk/"Sky App" and sky/"SK App" returns the entry with
    code "sk", in either list order. *)
Theorem find_app_entry_by_app_name_staged :
  (∀ apps app_name,
     staged_resolution apps app_name
       (_find_app_entry_by_app_name apps app_name)) ∧
  _find_app_entry_by_app_name [sk_entry; sky_entry] "SK" = Some sk_entry ∧
  _find_app_entry_by_app_name [sky_entry; sk_entry] "SK" = Some sk_entry.
Proof.
  split; [|by vm_compute].
  intros apps app_name. unfold _find_app_entry_by_app_name.
  pose proof (for_return_first_match
    (λ app, String.eqb (Py.lower (app_code app)) (Py.lower app_name))
    (stage_matches Exact_code app_name) apps) as H1.
  destruct (for_return _ apps) as [a|].
  { exists Exact_code. split.
    - apply H1. intros x. apply String.eqb_eq.
    - intros st'. simpl. lia. }
  assert (N1 : ∀ st', stage_rank st' < 1 →
                 Forall (λ x, ¬ stage_matches st' app_name x) apps).
  { intros [] ?; simpl in *; try lia. apply H1. intros x. apply String.eqb_eq. }
  clear H1.
  pose proof (for_return_first_match
    (λ app, negb (Py.find (Py.lower (title app)) (Py.lower app_name) 0 =? -1)%Z)
    (stage_matches Title_substring app_name) apps
    (λ x, find_substring _ _)) as H2.
  destruct (for_return _ apps) as [a|].
  { exists Title_substring. by split. }
  pose proof (earlier_stage_none Title_substring _ _ N1 H2) as N2. clear H2.
  pose proof (for_return_first_match
    (λ app, negb (Py.find (Py.replace_spaces (Py.lower (title app)))
                    (Py.replace_spaces (Py.lower app_name)) 0 =? -1)%Z)
    (stage_matches Spaceless_substring app_name) apps
    (λ x, find_substring _ _)) as H3.
  destruct (for_return _ apps) as [a|].
  { exists Spaceless_substring. by split. }
  pose proof (earlier_stage_none Spaceless_substring _ _ N2 H3) as N3. clear H3.
  pose proof (for_return_first_match
    (has_same_sequence (Py.replace_spaces (Py.lower app_name)))
    (stage_matches Subsequence_test app_name) apps
    (λ x, same_sequence_subsequence _ _)) as H4.
  destruct (for_return _ apps) as [a|].
  { exists Subsequence_test. by split. }
  pose proof (earlier_stage_none Subsequence_test _ _ N3 H4) as N4.
  intros st. apply N4. destruct st; simpl; lia.
Qed.

(** C4: the last stage accepts an entry exactly when the characters of the
    supplied name (lowercased, spaces removed) occur in order, not
    necessarily next to each other, in the title (lowercased, spaces
    removed); against "Olympia Retail Demo" the name "ord" is accepted and
    "dro" is rejected. *)
Theorem subsequence_stage_iff :
  (∀ app_name app,
     has_same_sequence (Py.replace_spaces (Py.lower app_name)) app = true ↔
     subsequence (Py.replace_spaces (Py.lower app_name))
       (Py.replace_spaces (Py.lower (title app)))) ∧
  has_same_sequence (Py.replace_spaces (Py.lower "ord")) retail_entry = true ∧
  has_same_sequence (Py.replace_spaces (Py.lower "dro")) retail_entry = false ∧
  _find_app_entry_by_app_name [retail_entry] "ord" = Some retail_entry ∧
  _find_app_entry_by_app_name [retail_entry] "dro" = None.
Proof.
  split; [|by vm_compute].
  intros app_name app. apply same_sequence_subsequence.
Qed.

(** C8: without an app name, resolution selects the first entry whose
    repository URL equals the git remote URL; when the required stage finds no
    match, [_find_app_entry] raises a usage error whose message names the
    supplied app name, respectively the git remote URL. *)
Theorem find_app_entry_no_match :
  ∀ apps git_info (git : option GitInfo) app_name,
    match _find_app_entry_by_git apps git_info with
    | Some a =>
        first_match (λ x, repo_url x = remote_url git_info) apps a ∧
        _find_app_entry apps (Some git_info) None =
          ([Echo ("Selected App: " +:+ app_code a) true false], inr a)
    | None =>
        Forall (λ x, repo_url x ≠ remote_url git_info) apps ∧
        _find_app_entry apps (Some git_info) None =
          raise (UsageError
            ("Could not find app on bitrise matching git url "
             +:+ remote_url git_info))
    end ∧
    match _find_app_entry_by_app_name apps app_name with
    | Some a =>
        _find_app_entry apps git (Some app_name) =
          ([Echo ("Selected App: " +:+ app_code a) true false], inr a)
    | None =>
        _find_app_entry apps git (Some app_name) =
          raise (UsageError
            ("Could not find app on bitrise matching " +:+ app_name))
    end.
Proof.
  intros apps git_info git app_name. split.
  - unfold _find_app_entry.
    pose proof (for_return_first_match
      (λ app, String.eqb (repo_url app) (remote_url git_info))
      (λ x, repo_url x = remote_url git_info) apps
      (λ x, String.eqb_eq _ _)) as H.
    unfold _find_app_entry_by_git.
    destruct (for_return _ apps) as [a|]; by split.
  - unfold _find_app_entry.
    by destruct (_find_app_entry_by_app_name apps app_name).
Qed.

(** ** Workflow selection *)

(** The claim of C2 fails: with staging explicitly off and production not
    requested the function raises. *)
Lemma compute_suffixes_raises :
  _compute_suffixes (Some false) None =
    raise (UsageError "No staging nor production, bailing out.") ∧
  _compute_suffixes (Some false) (Some false) =
    raise (UsageError "No staging nor production, bailing out.") ∧
  ¬ (∀ staging production,
       ∃ suffixes, _compute_suffixes staging production = ret suffixes ∧
                   suffixes ≠ []).
Proof.
  repeat split; try reflexivity.
  intros H. destruct (H (Some false) None) as (suffixes & E & _).
  discriminate E.
Qed.

(** C2 (amended): [_compute_suffixes] returns a non-empty list drawn from
    "stag" and "prod" for every pair of optional booleans except staging
    explicitly off with production not requested; for those it raises the usage
    error "No staging nor production, bailing out.". *)
Theorem compute_suffixes_nonempty_or_raises :
  ∀ staging production,
    (staging = Some false ∧ production ≠ Some true ∧
     _compute_suffixes staging production =
       raise (UsageError "No staging nor production, bailing out.")) ∨
    (¬ (staging = Some false ∧ production ≠ Some true) ∧
     ∃ suffixes, _compute_suffixes staging production = ret suffixes ∧
                 suffixes ≠ [] ∧ suffixes ⊆ ["stag"; "prod"]).
Proof.
  intros [[]|] [[]|];
    solve [ left; repeat split; congruence
          | right; split; [intros [? ?]; congruence|];
            eexists; split; [reflexivity|]; simpl; split; [done|];
            intros x; rewrite !elem_of_cons, elem_of_nil; tauto ].
Qed.

(** C3: nothing requested gives staging only; production requested, with
    staging unset or explicitly off, gives production only; both requested
    gives both. *)
Theorem compute_suffixes_truth_table :
  _compute_suffixes None None = ret ["stag"] ∧
  _compute_suffixes None (Some true) = ret ["prod"] ∧
  _compute_suffixes (Some false) (Some true) = ret ["prod"] ∧
  _compute_suffixes (Some true) (Some true) = ret ["stag"; "prod"].
Proof. by repeat split. Qed.

Section workflow_lookup.

#[local] Arguments _WORKFLOW_MAP : simpl never.

Lemma omap_cons {A B} (f : A → option B) x l :
  omap f (x :: l) =
  match f x with Some y => y :: omap f l | None => omap f l end.
Proof. done. Qed.

Lemma for_suffixes target suffixes workflows :
  for_ suffixes (λ suffix workflows,
    resolve_workflow target suffix workflows) workflows =
  (omap warned (map (pair target) suffixes),
   inr (workflows ++ omap resolved (map (pair target) suffixes))).
Proof.
  revert workflows.
  induction suffixes as [|suffix suffixes IH]; intros workflows.
  - simpl. unfold ret. by rewrite app_nil_r.
  - cbn [for_ map]. rewrite !omap_cons.
    unfold resolve_workflow, warned, resolved. cbn [fst snd].
    destruct (_WORKFLOW_MAP !! workflow_key target suffix) as [w|];
      cbn [bind ret echo_err emit]; rewrite IH; cbn [app].
    + by rewrite <- app_assoc.
    + done.
Qed.

Lemma for_targets targets suffixes workflows :
  for_ targets (λ target workflows,
    for_ suffixes (λ suffix workflows,
      resolve_workflow target suffix workflows) workflows) workflows =
  (omap warned (target_suffix_pairs targets suffixes),
   inr (workflows ++ omap resolved (target_suffix_pairs targets suffixes))).
Proof.
  revert workflows.
  induction targets as [|target targets IH]; intros workflows.
  - simpl. unfold ret. by rewrite app_nil_r.
  - cbn [for_ target_suffix_pairs flat_map]. rewrite for_suffixes.
    cbn [bind]. rewrite IH. rewrite !omap_app. by rewrite <- app_assoc.
Qed.

Ltac pick_pair target suffix :=
  exists target, suffix;
  split; [by repeat constructor | split; [by repeat constructor | reflexivity]].

Lemma workflow_map_keys key :
  is_Some (_WORKFLOW_MAP !! key) ↔
  ∃ target suffix,
    target ∈ ["olympia"; "sk"; "sky"; "retail"] ∧
    suffix ∈ ["stag"; "prod"] ∧ key = workflow_key target suffix.
Proof.
  split.
  - unfold _WORKFLOW_MAP. cbn [list_to_map foldr fst snd].
    rewrite !lookup_insert. rewrite lookup_empty.
    repeat case_decide; subst; intros [w Hw]; try discriminate Hw.
    all: first [ pick_pair "olympia" "stag" | pick_pair "olympia" "prod"
               | pick_pair "sk" "stag" | pick_pair "sk" "prod"
               | pick_pair "sky" "stag" | pick_pair "sky" "prod"
               | pick_pair "retail" "stag" | pick_pair "retail" "prod" ].
  - intros (target & suffix & Ht & Hs & ->).
    rewrite !elem_of_cons, elem_of_nil in Ht.
    rewrite !elem_of_cons, elem_of_nil in Hs.
    destruct Ht as [->|[->|[->|[->|[]]]]], Hs as [->|[->|[]]];
      eexists; by vm_compute.
Qed.

End workflow_lookup.

(** C5: the lookup table has exactly 8 entries, one per pair of the 4 targets
    and the 2 suffixes; [initialize_workflows], once the suffixes are
    computed, visits every (target, suffix) pair, appends the workflow of each
    pair the table knows, writes one warning to stderr for each pair it does
    not know, and returns normally. *)
Theorem initialize_workflows_skips_unknown :
  size _WORKFLOW_MAP = 8 ∧
  (∀ key,
     is_Some (_WORKFLOW_MAP !! key) ↔
     ∃ target suffix,
       target ∈ ["olympia"; "sk"; "sky"; "retail"] ∧
       suffix ∈ ["stag"; "prod"] ∧ key = workflow_key target suffix) ∧
  ∀ self targets staging production,
    initialize_workflows self targets staging production =
    let* suffixes := _compute_suffixes staging production in
    let pairs := target_suffix_pairs targets suffixes in
    (omap warned pairs,
     inr (with_workflows self (_workflows self ++ omap resolved pairs))).
Proof.
  split; [by vm_compute|]. split; [apply workflow_map_keys|].
  intros self targets staging production. unfold initialize_workflows.
  destruct (_compute_suffixes staging production) as [out [e|suffixes]];
    [done|].
  cbn [bind]. rewrite for_targets. cbn [bind ret]. by rewrite !app_nil_r.
Qed.

(** ** The trigger command *)

Section trigger_loop.

Context {Response : Type}.
Variable response_str : Response → string.
Variable response_get : Response → string → option string.
Variable build :
  nat → string → string → option string → bool → Z * string * Response.
Hypothesis Hcontract : success_exposes_build response_get build.

Lemma trigger_workflow_report app_entry branch clean workflow_id calls :
  trigger_workflow response_str response_get build
    app_entry branch clean workflow_id calls =
  (trigger_report response_str response_get build
     app_entry branch clean calls workflow_id, inr (S calls)).
Proof.
  unfold trigger_workflow, trigger_report.
  pose proof (Hcontract calls (slug app_entry) workflow_id branch clean)
    as Hok.
  destruct (build calls (slug app_entry) workflow_id branch clean)
    as [[status_code reason] response].
  cbn [fst snd] in Hok. cbn [bind echo_no_nl emit app].
  destruct (Z.eqb_spec status_code 201) as [->|Hne]; cbn [negb].
  - destruct Hok as [[number Hn] [url Hu]]; [done|].
    unfold getitem. rewrite Hn, Hu. done.
  - done.
Qed.

Lemma trigger_workflows_reports app_entry branch clean workflows calls :
  trigger_workflows response_str response_get build
    app_entry branch clean workflows calls =
  (concat (imap (λ i workflow_id,
             trigger_report response_str response_get build
               app_entry branch clean (calls + i) workflow_id) workflows),
   inr (calls + length workflows)).
Proof.
  unfold trigger_workflows. revert calls.
  induction workflows as [|workflow_id workflows IH]; intros calls.
  - simpl. unfold ret. do 2 f_equal. lia.
  - cbn [for_ imap concat length]. rewrite trigger_workflow_report.
    cbn [bind]. rewrite IH. rewrite Nat.add_0_r. do 2 f_equal.
    + f_equal. apply imap_ext. intros i w _. simpl. f_equal. lia.
    + lia.
Qed.

End trigger_loop.

(** C6: provided a 201 answer exposes [build_number] and [build_url], the
    loop of [trigger] reports every workflow in turn and returns normally: an
    answer with any other status code is reported by the line FAILED, the
    reason and the response body, and the loop goes on with the next
    workflow; a 201 answer is reported with its build number and build
    URL. *)
Theorem trigger_reports_every_workflow :
  ∀ {Response : Type} (response_str : Response → string)
    (response_get : Response → string → option string)
    (build : nat → string → string → option string → bool
             → Z * string * Response)
    app_entry branch clean workflows calls,
    success_exposes_build response_get build →
    trigger_workflows response_str response_get build
      app_entry branch clean workflows calls =
    (concat (imap (λ i workflow_id,
               trigger_report response_str response_get build
                 app_entry branch clean (calls + i) workflow_id) workflows),
     inr (calls + length workflows)).
Proof. intros. by apply trigger_workflows_reports. Qed.

Lemma sample_build_contract :
  success_exposes_build (λ (r : gmap string string) key, r !! key) sample_build.
Proof.
  intros [|calls] slug workflow_id branch clean; simpl; [done|].
  intros _. split; eexists; by vm_compute.
Qed.

Lemma trigger_reports_every_workflow_witness :
  success_exposes_build (λ (r : gmap string string) key, r !! key)
    sample_build ∧
  trigger_workflows (λ _, "{}") (λ (r : gmap string string) key, r !! key)
    sample_build sk_entry None false
    ["build_sk_apk_staging"; "build_sk_apk_production"] 0 =
  ([ Echo "Triggering build_sk_apk_staging ... " false false;
     Build "" "build_sk_apk_staging" None false;
     Echo "FAILED" true false;
     Echo "REASON: Internal Server Error" true true;
     Echo "RESPONSE: {}" true true;
     Echo "Triggering build_sk_apk_production ... " false false;
     Build "" "build_sk_apk_production" None false;
     Echo "SUCCESS: 42" true false;
     Echo "    https://app.bitrise.io/build/42" true false ],
   inr 2).
Proof.
  split; [exact sample_build_contract|].
  rewrite (trigger_reports_every_workflow (λ _, "{}")
             (λ (r : gmap string string) key, r !! key) sample_build
             sk_entry None false
             ["build_sk_apk_staging"; "build_sk_apk_production"] 0
             sample_build_contract).
  by vm_compute.
Defined.

(** ** The memo command *)

(** C7: [builds_memo] opens the editor once; in edit mode the template is the
    memo of the first build the index returns for the selected numbers, and
    it is empty when edit mode is off or no build is returned; when the
    edited text is missing or empty a warning is written to stderr and no
    [add_memo] is sent; otherwise [add_memo] is sent with the edited text. *)
Theorem builds_memo_template_and_update :
  ∀ (fetch_builds : string → list Z → list BuildEntry)
    (click_edit : string → option string) app_entry build edit,
    let template := memo_template fetch_builds app_entry build edit in
    (memo_template fetch_builds app_entry build false = "" ∧
     memo_template fetch_builds app_entry build true =
       match fetch_builds (app_code app_entry) build with
       | [] => ""
       | first :: _ => memo first
       end) ∧
    memo_builds fetch_builds click_edit app_entry build edit =
      ((if edit then [Fetch_builds (app_code app_entry) build] else []) ++
       Edit template ::
       match click_edit template with
       | None | Some EmptyString => [Echo "No memo specified" true true]
       | Some memo => [Add_memo (app_code app_entry) build edit memo]
       end,
       inr ()).
Proof.
  intros fetch_builds click_edit app_entry build edit template.
  split; [by split|].
  unfold memo_builds, template, memo_template.
  destruct edit; [destruct (fetch_builds _ _) as [|first rest]|];
    cbn [bind ret emit app];
    by destruct (click_edit _) as [[|c memo]|].
Qed.

(** ** The image tool's aliases *)

(** C9: in the image tool, the name "extract-alpha" is rewritten by the alias
    map to "alpha" before the lookup, so both names dispatch to the
    extract-alpha operation, although no command is registered under
    "extract-alpha" itself. *)
Theorem extract_alpha_alias :
  imgops._alias_map imgops.cli !! "extract-alpha" = Some "alpha" ∧
  imgops.get_command imgops.cli "extract-alpha" =
    imgops.Group_get_command (imgops.group imgops.cli) "alpha" ∧
  imgops.get_command imgops.cli "extract-alpha" = Some imgops.extract_alpha ∧
  imgops.get_command imgops.cli "alpha" = Some imgops.extract_alpha ∧
  imgops.Group_get_command (imgops.group imgops.cli) "extract-alpha" = None.
Proof. by vm_compute. Qed.

(** ** The download command *)

Section builds_apk.

Variable list_latest_builds :
  nat → string → option string → string → nat → list BuildEntry.

Lemma distinct_builds_empty : distinct_builds ([], ∅).
Proof.
  split; simpl; [constructor|]. intros n.
  rewrite elem_of_nil. set_solver.
Qed.

Lemma add_new_builds_distinct entries acc :
  distinct_builds acc →
  ∃ acc', add_new_builds entries acc = ([], inr acc') ∧ distinct_builds acc'.
Proof.
  unfold add_new_builds. revert acc.
  induction entries as [|entry entries IH]; intros acc Hacc.
  - exists acc. by split.
  - cbn [for_]. destruct acc as [build_entries build_num_set].
    case_decide as Hin.
    + destruct (IH _ Hacc) as (acc' & E & Hacc').
      exists acc'. cbn [bind ret]. by rewrite E.
    + destruct Hacc as [Hnodup Hset]. simpl in Hnodup, Hset.
      destruct (IH (build_entries ++ [entry],
                    build_num_set ∪ {[build_num entry]}))
        as (acc' & E & Hacc').
      { split; simpl.
        - rewrite fmap_app. apply NoDup_app. split; [done|]. split.
          + intros n Hn. simpl. rewrite list_elem_of_singleton.
            intros ->. by apply Hin, Hset.
          + simpl. apply NoDup_singleton.
        - intros n. rewrite fmap_app, elem_of_app, elem_of_union, Hset.
          simpl. by rewrite list_elem_of_singleton, elem_of_singleton. }
      exists acc'. cbn [bind ret]. by rewrite E.
Qed.

Lemma latest_builds_distinct app_entry git_branch workflows st :
  distinct_builds st.2 →
  ∃ st',
    latest_builds list_latest_builds app_entry git_branch workflows st =
      (map (λ workflow, List_latest_builds (app_code app_entry) git_branch
                          workflow 1) workflows,
       inr st') ∧
    distinct_builds st'.2.
Proof.
  unfold latest_builds. revert st.
  induction workflows as [|workflow workflows IH]; intros st Hst.
  - exists st. by split.
  - cbn [for_ map].
    destruct (add_new_builds_distinct
                (list_latest_builds st.1 (app_code app_entry) git_branch
                   workflow 1) st.2 Hst) as (acc & E & Hacc).
    destruct (IH (S st.1, acc) Hacc) as (st' & E' & Hst').
    exists st'. split; [|done].
    unfold emit in E' |- *. rewrite bind_returned, E, bind_returned.
    cbn [ret fst snd app]. by rewrite bind_returned, E'.
Qed.

End builds_apk.

(** C10: without explicit build numbers, [builds_apk] lists the latest build
    of every selected workflow once and the list of builds it assembles for
    download has no two entries with the same build number; with explicit
    build numbers it sends one fetch, whose numbers are those given with the
    duplicates collapsed. *)
Theorem builds_apk_distinct_build_numbers :
  ∀ (list_latest_builds :
       nat → string → option string → string → nat → list BuildEntry)
    (fetch_builds : string → list Z → list BuildEntry) self app_entry,
    (∃ build_entries,
       builds_apk_entries list_latest_builds fetch_builds self app_entry [] =
         (map (λ workflow, List_latest_builds (app_code app_entry)
                             (_branch self) workflow 1) (_workflows self),
          inr build_entries) ∧
       NoDup (build_num <$> build_entries)) ∧
    (∀ build_num build_nums,
       ∃ request,
         builds_apk_entries list_latest_builds fetch_builds self app_entry
           (build_num :: build_nums) =
           ([Fetch_builds (app_code app_entry) request],
            inr (fetch_builds (app_code app_entry) request)) ∧
         NoDup request ∧
         ∀ n, n ∈ request ↔ n ∈ build_num :: build_nums).
Proof.
  intros list_latest_builds fetch_builds self app_entry. split.
  - unfold builds_apk_entries.
    destruct (latest_builds_distinct list_latest_builds app_entry
                (_branch self) (_workflows self) (0, ([], ∅))
                distinct_builds_empty) as (st' & E & [Hnodup _]).
    exists st'.2.1. rewrite E. cbn [bind ret]. by rewrite app_nil_r.
  - intros build_num build_nums.
    exists (elements (list_to_set (build_num :: build_nums) : gset Z)).
    split; [done|]. split; [apply NoDup_elements|].
    intros n. by rewrite elem_of_elements, elem_of_list_to_set.
Qed.

(** * Further properties of the code *)

(** ** App resolution *)

Lemma for_return_elem {A} (cond : A → bool) xs a :
  for_return cond xs = Some a → a ∈ xs ∧ cond a = true.
Proof.
  intros (l1 & l2 & -> & Ha & _)%for_return_Some. split; [|done].
  apply elem_of_app. right. by left.
Qed.

Lemma for_return_is_Some {A} (cond : A → bool) xs a :
  a ∈ xs → cond a = true → is_Some (for_return cond xs).
Proof.
  intros Hin Ha. destruct (for_return cond xs) eqn:E; [by eexists|].
  apply for_return_None in E. rewrite Forall_forall in E.
  specialize (E a Hin). congruence.
Qed.

Lemma lower_char_idempotent c :
  Py.lower_char (Py.lower_char c) = Py.lower_char c.
Proof. by destruct c as [[] [] [] [] [] [] [] []]. Qed.

Lemma lower_idempotent s : Py.lower (Py.lower s) = Py.lower s.
Proof.
  induction s as [|c s IH]; simpl; [done|].
  by rewrite lower_char_idempotent, IH.
Qed.

Section cascade.

#[local] Arguments String.append !_ _ / : simpl nomatch.

Lemma replace_spaces_append s1 s2 :
  Py.replace_spaces (s1 +:+ s2) =
  Py.replace_spaces s1 +:+ Py.replace_spaces s2.
Proof.
  induction s1 as [|c s1 IH]; simpl; [done|].
  destruct (Ascii.eqb c " "); simpl; by rewrite IH.
Qed.

Lemma is_substring_replace_spaces sub s :
  is_substring sub s →
  is_substring (Py.replace_spaces sub) (Py.replace_spaces s).
Proof.
  intros (pre & post & ->). rewrite !replace_spaces_append. by eexists _, _.
Qed.

Lemma subsequence_append_r a post : subsequence a (a +:+ post).
Proof. induction a; simpl; by constructor. Qed.

Lemma is_substring_subsequence sub s : is_substring sub s → subsequence sub s.
Proof.
  intros (pre & post & ->). apply subsequence_append_l, subsequence_append_r.
Qed.

Lemma is_substring_empty s : is_substring "" s.
Proof. by exists "", s. Qed.

End cascade.

(** X1: the name resolution returns one of the listed entries, and so does the
    resolution by git remote URL: neither ever makes up an entry. *)
Theorem find_app_entry_returns_listed :
  ∀ apps git_info app_name,
    match _find_app_entry_by_app_name apps app_name with
    | Some a => a ∈ apps
    | None => True
    end ∧
    match _find_app_entry_by_git apps git_info with
    | Some a => a ∈ apps
    | None => True
    end.
Proof.
  intros apps git_info app_name. split.
  - unfold _find_app_entry_by_app_name.
    repeat (destruct (for_return _ apps) as [a|] eqn:E;
            [by apply for_return_elem in E as [? _] | clear E]).
    done.
  - unfold _find_app_entry_by_git.
    destruct (for_return _ apps) as [a|] eqn:E; [|done].
    by apply for_return_elem in E as [? _].
Qed.

(** X2: the stages only get more tolerant, so name resolution finds nothing
    exactly when no entry has the supplied name as its app code (ignoring
    case) and no entry's title contains the name as a subsequence (ignoring
    case and spaces). *)
Theorem find_app_entry_by_app_name_none_iff :
  ∀ apps app_name,
    _find_app_entry_by_app_name apps app_name = None ↔
    Forall (λ app,
      Py.lower (app_code app) ≠ Py.lower app_name ∧
      ¬ subsequence (Py.replace_spaces (Py.lower app_name))
          (Py.replace_spaces (Py.lower (title app)))) apps.
Proof.
  intros apps app_name. unfold _find_app_entry_by_app_name. split.
  - intros H.
    destruct (for_return _ apps) eqn:E1; [done|].
    destruct (for_return _ apps) eqn:E2 in H; [done|].
    destruct (for_return _ apps) eqn:E3 in H; [done|].
    apply for_return_None in E1, H. rewrite Forall_forall in E1, H.
    apply Forall_forall. intros app Hin. split.
    + intros Heq. apply String.eqb_eq in Heq. specialize (E1 app Hin).
      simpl in E1. congruence.
    + intros Hsub. apply same_sequence_subsequence in Hsub.
      specialize (H app Hin). unfold has_same_sequence in H. congruence.
  - intros H. rewrite Forall_forall in H.
    assert (N : ∀ cond : AppEntry → bool,
              (∀ app, app ∈ apps → cond app = false) →
              for_return cond apps = None).
    { intros cond Hc. apply for_return_None, Forall_forall, Hc. }
    rewrite N; [rewrite N; [rewrite N; [apply N|]|]|].
    + intros app Hin. apply not_true_is_false. intros Ht.
      apply same_sequence_subsequence in Ht. by apply (H app Hin).
    + intros app Hin. apply not_true_is_false. intros Ht.
      apply find_substring, is_substring_subsequence in Ht.
      by apply (H app Hin).
    + intros app Hin. apply not_true_is_false. intros Ht.
      apply find_substring, is_substring_replace_spaces,
        is_substring_subsequence in Ht.
      by apply (H app Hin).
    + intros app Hin. apply not_true_is_false. intros Ht.
      apply String.eqb_eq in Ht. by destruct (H app Hin) as [Hne _].
Qed.

(** X3: the supplied name is only looked at through its lowercased form:
    resolving a name and resolving its lowercased form give the same
    entry. *)
Theorem find_app_entry_by_app_name_ignores_case :
  ∀ apps app_name,
    _find_app_entry_by_app_name apps (Py.lower app_name) =
    _find_app_entry_by_app_name apps app_name.
Proof.
  intros apps app_name. unfold _find_app_entry_by_app_name.
  by rewrite lower_idempotent.
Qed.

(** X4: a name that is empty, or made of spaces only, never fails on a
    non-empty list of apps: the stage without spaces accepts the first
    entry. *)
Theorem find_app_entry_by_blank_name :
  ∀ app_name a apps,
    Py.replace_spaces (Py.lower app_name) = "" →
    is_Some (_find_app_entry_by_app_name (a :: apps) app_name).
Proof.
  intros app_name a apps Hblank. unfold _find_app_entry_by_app_name.
  destruct (for_return _ (a :: apps)); [by eexists|].
  destruct (for_return _ (a :: apps)); [by eexists|].
  rewrite Hblank.
  destruct (for_return_is_Some
    (λ app, negb (Py.find (Py.replace_spaces (Py.lower (title app))) "" 0
                  =? -1)%Z) (a :: apps) a) as [b ->]; [by left| |by eexists].
  apply find_substring, is_substring_empty.
Qed.

Lemma find_app_entry_by_blank_name_witness :
  Py.replace_spaces (Py.lower "  ") = "" ∧
  is_Some (_find_app_entry_by_app_name [sky_entry; sk_entry] "  ").
Proof.
  split; [reflexivity|].
  apply (find_app_entry_by_blank_name "  " sky_entry [sk_entry]). reflexivity.
Defined.

(** X5: the app code of a listed entry always resolves, and to an entry with
    that app code (up to case): the first such entry of the list. *)
Theorem find_app_entry_by_own_code :
  ∀ apps a,
    a ∈ apps →
    ∃ b, _find_app_entry_by_app_name apps (app_code a) = Some b ∧
         Py.lower (app_code b) = Py.lower (app_code a) ∧
         first_match (λ x, Py.lower (app_code x) = Py.lower (app_code a))
           apps b.
Proof.
  intros apps a Hin. unfold _find_app_entry_by_app_name.
  pose proof (for_return_first_match
    (λ app, String.eqb (Py.lower (app_code app)) (Py.lower (app_code a)))
    (λ x, Py.lower (app_code x) = Py.lower (app_code a)) apps
    (λ x, String.eqb_eq _ _)) as H.
  destruct (for_return _ apps) as [b|].
  - exists b. split; [done|]. split; [|done]. by destruct H as (? & ? & ? & ? & ?).
  - rewrite Forall_forall in H. by destruct (H a Hin).
Qed.

Lemma find_app_entry_by_own_code_witness :
  sk_entry ∈ [sky_entry; sk_entry] ∧
  ∃ b, _find_app_entry_by_app_name [sky_entry; sk_entry] (app_code sk_entry)
       = Some b ∧
       Py.lower (app_code b) = Py.lower (app_code sk_entry) ∧
       first_match (λ x, Py.lower (app_code x) = Py.lower (app_code sk_entry))
         [sky_entry; sk_entry] b.
Proof.
  assert (H : sk_entry ∈ [sky_entry; sk_entry]) by (right; left).
  split; [exact H|].
  exact (find_app_entry_by_own_code [sky_entry; sk_entry] sk_entry H).
Defined.

(** ** Branch and workflow selection *)

(** X6: [initialize_branch] treats an empty explicit branch like none; it
    raises exactly when there is no non-empty explicit branch, the git branch
    is asked for and there is no git repository; otherwise it echoes nothing
    and changes nothing of the context but the branch. *)
Theorem initialize_branch_edge_cases :
  ∀ self branch use_git_branch,
    initialize_branch self (Some "") use_git_branch =
      initialize_branch self None use_git_branch ∧
    ((∃ e, initialize_branch self branch use_git_branch = raise e) ↔
     Py.str_truthy branch = false ∧ use_git_branch = true ∧
     git_info self = None) ∧
    match initialize_branch self branch use_git_branch with
    | (out, inr self') =>
        out = [] ∧ git_info self' = git_info self ∧
        _app_name self' = _app_name self ∧
        _workflows self' = _workflows self
    | (out, inl _) => out = []
    end.
Proof.
  intros self branch use_git_branch. split; [done|].
  unfold initialize_branch.
  destruct (Py.str_truthy branch), use_git_branch,
    (git_info self) as [git|]; simpl; (split; [|done]).
  all: try (split; [intros [e He]; discriminate He
                   | intros (? & ? & ?); congruence]).
  split; [done|]. intros _. by eexists.
Qed.

Lemma compute_suffixes_silent staging production :
  (_compute_suffixes staging production).1 = [].
Proof. by destruct staging as [[]|], production as [[]|]. Qed.

(** X7: when [_compute_suffixes] returns, "prod" is among the suffixes exactly
    when production was explicitly requested, "stag" exactly when staging was
    explicitly requested or left open with production not requested, and no
    suffix is listed twice. *)
Theorem compute_suffixes_membership :
  ∀ staging production,
    match _compute_suffixes staging production with
    | (_, inr suffixes) =>
        ("prod" ∈ suffixes ↔ production = Some true) ∧
        ("stag" ∈ suffixes ↔
         staging = Some true ∨ (staging = None ∧ production ≠ Some true)) ∧
        NoDup suffixes
    | (_, inl _) => True
    end.
Proof.
  intros [[]|] [[]|]; simpl; try done.
  all: split; [|split; [|apply (bool_decide_unpack _); by vm_compute]].
  all: rewrite ?elem_of_cons, ?elem_of_nil;
    intuition (discriminate || congruence || auto).
Qed.

Section workflow_selection.

#[local] Arguments String.append !_ _ / : simpl nomatch.
#[local] Arguments _WORKFLOW_MAP : simpl never.

Lemma length_append s1 s2 :
  String.length (s1 +:+ s2) = String.length s1 + String.length s2.
Proof. induction s1 as [|c s1 IH]; simpl; [done|]. by rewrite IH. Qed.

Lemma append_inj_same_length s1 s2 t1 t2 :
  String.length t1 = String.length t2 →
  s1 +:+ t1 = s2 +:+ t2 → s1 = s2 ∧ t1 = t2.
Proof.
  intros Hlen. revert s2.
  induction s1 as [|c s1 IH]; intros [|c' s2] E; simpl in E.
  - done.
  - apply (f_equal String.length) in E. simpl in E.
    rewrite length_append in E. lia.
  - apply (f_equal String.length) in E. simpl in E.
    rewrite length_append in E. lia.
  - injection E as -> E. by destruct (IH _ E) as [-> ->].
Qed.

(** Two keys with suffixes of the same length agree only when the targets
    and the suffixes agree. *)
Lemma workflow_key_inj target suffix target' suffix' :
  String.length suffix = String.length suffix' →
  workflow_key target suffix = workflow_key target' suffix' →
  target = target' ∧ suffix = suffix'.
Proof.
  intros Hlen E. unfold workflow_key in E.
  apply append_inj_same_length in E as [-> E]; [|simpl; lia].
  by injection E as ->.
Qed.

Lemma resolved_known_target target suffix w :
  suffix ∈ ["stag"; "prod"] →
  _WORKFLOW_MAP !! workflow_key target suffix = Some w →
  target ∈ known_targets.
Proof.
  intros Hs Hw.
  destruct (proj1 (workflow_map_keys (workflow_key target suffix)))
    as (target' & suffix' & Ht' & Hs' & E); [by eexists|].
  apply workflow_key_inj in E as [-> _]; [done|].
  rewrite !elem_of_cons, elem_of_nil in Hs.
  rewrite !elem_of_cons, elem_of_nil in Hs'.
  by destruct Hs as [->|[->|[]]], Hs' as [->|[->|[]]].
Qed.

Lemma known_target_resolved target suffix :
  target ∈ known_targets → suffix ∈ ["stag"; "prod"] →
  is_Some (_WORKFLOW_MAP !! workflow_key target suffix).
Proof. intros Ht Hs. apply workflow_map_keys. by exists target, suffix. Qed.

(** No workflow of the table serves both a staging and a production key. *)
Lemma staging_is_not_production target target' w :
  _WORKFLOW_MAP !! workflow_key target "stag" = Some w →
  _WORKFLOW_MAP !! workflow_key target' "prod" ≠ Some w.
Proof.
  intros Hs Hp.
  assert (Ht : target ∈ known_targets).
  { eapply resolved_known_target; [|done]. by left. }
  assert (Ht' : target' ∈ known_targets).
  { eapply resolved_known_target; [|done]. right. by left. }
  unfold known_targets in Ht, Ht'.
  rewrite !elem_of_cons, elem_of_nil in Ht.
  rewrite !elem_of_cons, elem_of_nil in Ht'.
  destruct Ht as [->|[->|[->|[->|[]]]]], Ht' as [->|[->|[->|[->|[]]]]];
    vm_compute in Hs, Hp; congruence.
Qed.

Lemma length_target_suffix_pairs targets suffixes :
  length (target_suffix_pairs targets suffixes) =
  length targets * length suffixes.
Proof.
  unfold target_suffix_pairs. apply flat_map_constant_length.
  intros target _. by rewrite length_map.
Qed.

Lemma elem_of_target_suffix_pairs p targets suffixes :
  p ∈ target_suffix_pairs targets suffixes ↔
  p.1 ∈ targets ∧ p.2 ∈ suffixes.
Proof.
  unfold target_suffix_pairs. rewrite list_elem_of_In, in_flat_map. split.
  - intros (target & Ht & Hp). apply in_map_iff in Hp as (suffix & <- & Hs).
    by rewrite !list_elem_of_In.
  - intros [Ht Hs]. exists p.1. rewrite <- list_elem_of_In. split; [done|].
    apply in_map_iff. exists p.2. rewrite <- list_elem_of_In.
    by destruct p.
Qed.

Lemma warned_resolved_length pairs :
  length (omap warned pairs) + length (omap resolved pairs) = length pairs.
Proof.
  induction pairs as [|p pairs IH]; [done|].
  rewrite !omap_cons. unfold warned at 1, resolved at 1.
  destruct (_WORKFLOW_MAP !! workflow_key p.1 p.2); simpl; lia.
Qed.

Lemma all_resolved pairs :
  Forall (λ p, is_Some (resolved p)) pairs →
  omap warned pairs = [] ∧ length (omap resolved pairs) = length pairs.
Proof.
  induction 1 as [|p pairs [w Hw] _ [IHw IHr]]; [done|].
  rewrite !omap_cons.
  assert (warned p = None) as ->.
  { unfold warned. unfold resolved in Hw. by rewrite Hw. }
  rewrite Hw. simpl. by rewrite IHr.
Qed.

Lemma compute_suffixes_known staging production suffixes :
  _compute_suffixes staging production = ret suffixes →
  suffixes ⊆ ["stag"; "prod"].
Proof.
  destruct staging as [[]|], production as [[]|]; intros [= <-];
    intros x; rewrite !elem_of_cons, elem_of_nil; tauto.
Qed.

Lemma compute_suffixes_staging_only staging production suffixes :
  production ≠ Some true →
  _compute_suffixes staging production = ret suffixes →
  suffixes = ["stag"].
Proof.
  destruct staging as [[]|], production as [[]|]; intros Hp [= <-];
    done.
Qed.

Lemma initialize_workflows_returned self targets staging production suffixes :
  _compute_suffixes staging production = ret suffixes →
  initialize_workflows self targets staging production =
  (omap warned (target_suffix_pairs targets suffixes),
   inr (with_workflows self
          (_workflows self ++
           omap resolved (target_suffix_pairs targets suffixes)))).
Proof.
  intros E. unfold initialize_workflows. rewrite E.
  unfold ret at 1. rewrite bind_returned, for_targets, bind_returned.
  by rewrite app_nil_r.
Qed.

End workflow_selection.

(** X8: unless production is explicitly requested, every workflow that
    [initialize_workflows] adds is the staging workflow of one of the given
    targets, and none of them is the production workflow of any target. *)
Theorem initialize_workflows_staging_only :
  ∀ self targets staging production out self',
    production ≠ Some true →
    initialize_workflows self targets staging production = (out, inr self') →
    ∃ added,
      _workflows self' = _workflows self ++ added ∧
      ∀ w, w ∈ added →
        (∃ target, target ∈ targets ∧
                   _WORKFLOW_MAP !! workflow_key target "stag" = Some w) ∧
        ∀ target, _WORKFLOW_MAP !! workflow_key target "prod" ≠ Some w.
Proof.
  intros self targets staging production out self' Hprod Hinit.
  destruct (_compute_suffixes staging production) as [o [e|suffixes]] eqn:E.
  { unfold initialize_workflows in Hinit. rewrite E in Hinit.
    discriminate Hinit. }
  pose proof (compute_suffixes_silent staging production) as Ho.
  rewrite E in Ho. simpl in Ho. subst o.
  pose proof (compute_suffixes_staging_only _ _ _ Hprod E) as ->.
  rewrite (initialize_workflows_returned _ _ _ _ _ E) in Hinit.
  injection Hinit as _ <-.
  eexists. split; [reflexivity|].
  intros w (p & Hp & Hw)%list_elem_of_omap.
  apply elem_of_target_suffix_pairs in Hp as [Ht Hs].
  apply list_elem_of_singleton in Hs. unfold resolved in Hw.
  rewrite Hs in Hw. split.
  - by exists p.1.
  - intros target. by eapply staging_is_not_production.
Qed.

Lemma initialize_workflows_staging_only_witness :
  (None : option bool) ≠ Some true ∧
  ∃ added,
    ["kept"; "build_sk_apk_staging"] = ["kept"] ++ added ∧
    ∀ w, w ∈ added →
      (∃ target, target ∈ ["sk"; "bogus"] ∧
                 _WORKFLOW_MAP !! workflow_key target "stag" = Some w) ∧
      ∀ target, _WORKFLOW_MAP !! workflow_key target "prod" ≠ Some w.
Proof.
  split; [discriminate|].
  apply (initialize_workflows_staging_only
           (with_workflows (init None) ["kept"]) ["sk"; "bogus"] None None
           [Echo "Cannot identify workflow id for bogus stag" true true]
           (with_workflows (init None) ["kept"; "build_sk_apk_staging"]));
    [discriminate | by vm_compute].
Defined.

(** X9: for targets among the four the command line accepts,
    [initialize_workflows] never warns: it adds one workflow for every pair of
    a target and a computed suffix. *)
Theorem initialize_workflows_known_targets :
  ∀ self targets staging production suffixes,
    targets ⊆ known_targets →
    _compute_suffixes staging production = ret suffixes →
    ∃ added,
      initialize_workflows self targets staging production =
        ([], inr (with_workflows self (_workflows self ++ added))) ∧
      length added = length targets * length suffixes.
Proof.
  intros self targets staging production suffixes Hknown E.
  rewrite (initialize_workflows_returned _ _ _ _ _ E).
  destruct (all_resolved (target_suffix_pairs targets suffixes)) as [-> Hlen].
  { apply Forall_forall. intros p [Ht Hs]%elem_of_target_suffix_pairs.
    apply known_target_resolved; [by apply Hknown|].
    by apply (compute_suffixes_known _ _ _ E). }
  eexists. split; [reflexivity|].
  by rewrite Hlen, length_target_suffix_pairs.
Qed.

Lemma initialize_workflows_known_targets_witness :
  ["sk"; "retail"; "sk"] ⊆ known_targets ∧
  _compute_suffixes (Some true) (Some true) = ret ["stag"; "prod"] ∧
  ∃ added,
    initialize_workflows (init None) ["sk"; "retail"; "sk"]
      (Some true) (Some true) =
      ([], inr (with_workflows (init None) (_workflows (init None) ++ added))) ∧
    length added = length ["sk"; "retail"; "sk"] * length ["stag"; "prod"].
Proof.
  assert (H : ["sk"; "retail"; "sk"] ⊆ known_targets).
  { intros x. unfold known_targets. rewrite !elem_of_cons. tauto. }
  split; [exact H|]. split; [reflexivity|].
  exact (initialize_workflows_known_targets (init None) ["sk"; "retail"; "sk"]
           (Some true) (Some true) ["stag"; "prod"] H eq_refl).
Defined.

(** X10: [initialize_workflows] raises exactly when [_compute_suffixes] does,
    with the same error; otherwise every pair of a target and a suffix is
    accounted for once, by a workflow added to the context or by a
    warning. *)
Theorem initialize_workflows_accounts_for_every_pair :
  ∀ self targets staging production,
    match _compute_suffixes staging production,
          initialize_workflows self targets staging production with
    | (_, inr suffixes), (out, inr self') =>
        length out + length (_workflows self') =
        length (_workflows self) + length targets * length suffixes
    | (_, inl e), (out, inl e') => e = e' ∧ out = []
    | _, _ => False
    end.
Proof.
  intros self targets staging production.
  pose proof (compute_suffixes_silent staging production) as Ho.
  destruct (_compute_suffixes staging production) as [o [e|suffixes]] eqn:E;
    simpl in Ho; subst o.
  - unfold initialize_workflows. by rewrite E.
  - rewrite (initialize_workflows_returned _ _ _ _ _ E). simpl.
    rewrite length_app, <- length_target_suffix_pairs.
    pose proof (warned_resolved_length
                  (target_suffix_pairs targets suffixes)). lia.
Qed.

(** X11: selecting the workflows of a list of targets is the same as
    selecting those of its first part and then, on the resulting context,
    those of the rest: the selection accumulates, target by target. *)
Theorem initialize_workflows_app :
  ∀ self targets1 targets2 staging production,
    initialize_workflows self (targets1 ++ targets2) staging production =
    let* self' := initialize_workflows self targets1 staging production in
    initialize_workflows self' targets2 staging production.
Proof.
  intros self targets1 targets2 staging production.
  pose proof (compute_suffixes_silent staging production) as Ho.
  destruct (_compute_suffixes staging production) as [o [e|suffixes]] eqn:E;
    simpl in Ho; subst o.
  - unfold initialize_workflows. by rewrite E.
  - rewrite !(initialize_workflows_returned _ _ _ _ _ E), bind_returned.
    rewrite !(initialize_workflows_returned _ _ _ _ _ E). simpl.
    unfold target_suffix_pairs. rewrite flat_map_app, !omap_app.
    by rewrite app_assoc.
Qed.

(** ** The trigger command as a whole *)

Lemma bind_inv {A B} (m : M A) (k : A → M B) tr r :
  bind m k = (tr, r) →
  (∃ e, m = (tr, inl e) ∧ r = inl e) ∨
  (∃ out a out', m = (out, inr a) ∧ k a = (out', r) ∧ tr = out ++ out').
Proof.
  destruct m as [out [e|a]]; simpl.
  - intros [= <- <-]. left. by exists e.
  - destruct (k a) as [out' r'] eqn:Ek. intros [= <- <-].
    right. by exists out, a, out'.
Qed.

Lemma find_app_entry_no_build apps git app_name :
  Forall (λ e, is_build e = false) (_find_app_entry apps git app_name).1.
Proof.
  unfold _find_app_entry.
  destruct app_name as [app_name|].
  - destruct (_find_app_entry_by_app_name apps app_name); simpl;
      by repeat constructor.
  - destruct git as [git|]; [|by constructor].
    destruct (_find_app_entry_by_git apps git); simpl; by repeat constructor.
Qed.

Lemma initialize_branch_silent self branch use_git_branch :
  (initialize_branch self branch use_git_branch).1 = [].
Proof.
  unfold initialize_branch.
  by destruct (Py.str_truthy branch), use_git_branch, (git_info self).
Qed.

Lemma warned_no_build pairs :
  Forall (λ e, is_build e = false) (omap warned pairs).
Proof.
  apply Forall_forall. intros e (p & _ & Hp)%list_elem_of_omap.
  unfold warned in Hp. destruct (_ !! _); [done|]. by injection Hp as <-.
Qed.

Lemma initialize_workflows_no_build self targets staging production :
  Forall (λ e, is_build e = false)
    (initialize_workflows self targets staging production).1.
Proof.
  pose proof (compute_suffixes_silent staging production) as Ho.
  destruct (_compute_suffixes staging production) as [o [e|suffixes]] eqn:E;
    simpl in Ho; subst o.
  - unfold initialize_workflows. rewrite E. by constructor.
  - rewrite (initialize_workflows_returned _ _ _ _ _ E). simpl.
    apply warned_no_build.
Qed.

Section trigger_command.

Context {Response : Type}.
Variable response_str : Response → string.
Variable response_get : Response → string → option string.
Variable build :
  nat → string → string → option string → bool → Z * string * Response.

Lemma trigger_workflow_no_usage_error app_entry branch clean workflow_id calls
    msg :
  (trigger_workflow response_str response_get build
     app_entry branch clean workflow_id calls).2 ≠ inl (UsageError msg).
Proof.
  unfold trigger_workflow, getitem.
  destruct (build calls (slug app_entry) workflow_id branch clean)
    as [[status_code reason] response].
  destruct (negb (status_code =? 201)%Z); [done|].
  destruct (response_get response "build_number"); [|done].
  by destruct (response_get response "build_url").
Qed.

Lemma trigger_workflows_no_usage_error app_entry branch clean workflows calls
    msg :
  (trigger_workflows response_str response_get build
     app_entry branch clean workflows calls).2 ≠ inl (UsageError msg).
Proof.
  unfold trigger_workflows. revert calls.
  induction workflows as [|workflow_id workflows IH]; intros calls; [done|].
  cbn [for_].
  pose proof (trigger_workflow_no_usage_error app_entry branch clean
                workflow_id calls msg) as H1.
  destruct (trigger_workflow _ _ _ _ _ _ _ _) as [out [e|calls']].
  - simpl in *. congruence.
  - rewrite bind_returned. simpl. apply IH.
Qed.

End trigger_command.

(** X12: when [trigger] ends in a usage error (no matching app, no git
    repository for the branch, no environment selected), no build has been
    requested from the CI endpoint. *)
Theorem trigger_usage_error_requests_nothing :
  ∀ {Response : Type} (response_str : Response → string)
    (response_get : Response → string → option string)
    (build : nat → string → string → option string → bool
             → Z * string * Response)
    self all_apps branch staging production targets clean tr msg,
    trigger response_str response_get build
      self all_apps branch staging production targets clean =
      (tr, inl (UsageError msg)) →
    Forall (λ e, is_build e = false) tr.
Proof.
  intros Response response_str response_get build
    self all_apps branch staging production targets clean tr msg H.
  unfold trigger in H.
  pose proof (find_app_entry_no_build all_apps (git_info self)
                (_app_name self)) as Happ.
  apply bind_inv in H as [(e & Ha & _)|(out1 & a & tr1 & Ha & H & ->)];
    unfold app_entry in Ha; rewrite Ha in Happ; simpl in Happ; [done|].
  apply Forall_app. split; [done|]. clear Ha Happ.
  pose proof (initialize_branch_silent self branch true) as Hbr.
  apply bind_inv in H as [(e & Hb & _)|(out2 & self2 & tr2 & Hb & H & ->)];
    rewrite Hb in Hbr; simpl in Hbr; subst; [by constructor|].
  simpl. clear Hb.
  pose proof (initialize_workflows_no_build self2 targets staging production)
    as Hwf.
  apply bind_inv in H as [(e & Hw & _)|(out3 & self3 & tr3 & Hw & H & ->)];
    rewrite Hw in Hwf; simpl in Hwf; [done|].
  apply Forall_app. split; [done|]. clear Hw Hwf.
  apply bind_inv in H as [(e & Ht & He)|(out4 & n & tr4 & _ & H & _)];
    [|discriminate H].
  pose proof (trigger_workflows_no_usage_error response_str response_get
                build a (_branch self3) clean (_workflows self3) 0 msg) as Hno.
  rewrite Ht in Hno. simpl in Hno. congruence.
Qed.

Lemma trigger_usage_error_requests_nothing_witness :
  Forall (λ e, is_build e = false)
    [Echo "Selected App: sk" true false].
Proof.
  apply (trigger_usage_error_requests_nothing (λ _, "{}")
           (λ (r : gmap string string) key, r !! key) sample_build
           (nbp None (Some "sk")) [sk_entry] (Some "main")
           (Some false) None ["sk"] false
           [Echo "Selected App: sk" true false]
           "No staging nor production, bailing out.").
  by vm_compute.
Defined.

Section trigger_requests.

Context {Response : Type}.
Variable response_str : Response → string.
Variable response_get : Response → string → option string.
Variable build :
  nat → string → string → option string → bool → Z * string * Response.
Hypothesis Hcontract : success_exposes_build response_get build.

Lemma trigger_report_one_build app_entry branch clean calls workflow_id :
  filter (λ e, is_build e = true)
    (trigger_report response_str response_get build
       app_entry branch clean calls workflow_id) =
  [Build (slug app_entry) workflow_id branch clean].
Proof.
  unfold trigger_report.
  destruct (build calls (slug app_entry) workflow_id branch clean)
    as [[status_code reason] response].
  by destruct (status_code =? 201)%Z.
Qed.

Lemma trigger_workflows_builds app_entry branch clean workflows calls :
  filter (λ e, is_build e = true)
    (trigger_workflows response_str response_get build
       app_entry branch clean workflows calls).1 =
  map (λ workflow_id, Build (slug app_entry) workflow_id branch clean)
    workflows.
Proof.
  unfold trigger_workflows. revert calls.
  induction workflows as [|workflow_id workflows IH]; intros calls; [done|].
  cbn [for_ map]. rewrite (trigger_workflow_report _ _ _ Hcontract).
  rewrite bind_returned. cbn [fst]. rewrite filter_app.
  by rewrite trigger_report_one_build, IH.
Qed.

End trigger_requests.

(** X13: provided a 201 answer exposes [build_number] and [build_url], the
    loop of [trigger] requests exactly one build per selected workflow, in
    the order of the workflows and each with the app's slug, the resolved
    branch and the clean flag; a workflow selected twice is built twice. *)
Theorem trigger_requests_one_build_per_workflow :
  ∀ {Response : Type} (response_str : Response → string)
    (response_get : Response → string → option string)
    (build : nat → string → string → option string → bool
             → Z * string * Response)
    app_entry branch clean workflows calls,
    success_exposes_build response_get build →
    filter (λ e, is_build e = true)
      (trigger_workflows response_str response_get build
         app_entry branch clean workflows calls).1 =
    map (λ workflow_id, Build (slug app_entry) workflow_id branch clean)
      workflows.
Proof. intros. by apply trigger_workflows_builds. Qed.

Lemma trigger_requests_one_build_per_workflow_witness :
  success_exposes_build (λ (r : gmap string string) key, r !! key)
    sample_build ∧
  filter (λ e, is_build e = true)
    (trigger_workflows (λ _, "{}") (λ (r : gmap string string) key, r !! key)
       sample_build sk_entry (Some "main") true
       ["build_sk_apk_staging"; "build_sk_apk_staging"] 0).1 =
  [Build "" "build_sk_apk_staging" (Some "main") true;
   Build "" "build_sk_apk_staging" (Some "main") true].
Proof.
  split; [exact sample_build_contract|].
  exact (trigger_requests_one_build_per_workflow (λ _, "{}")
           (λ (r : gmap string string) key, r !! key) sample_build
           sk_entry (Some "main") true
           ["build_sk_apk_staging"; "build_sk_apk_staging"] 0
           sample_build_contract).
Defined.

(** X14: when the endpoint answers 201 with a body that lacks
    [build_number], the loop of [trigger] raises [KeyError] right after the
    request: the build has been requested, neither SUCCESS nor FAILED is
    printed, and the remaining workflows are not triggered. *)
Theorem trigger_success_body_without_build_number :
  ∀ {Response : Type} (response_str : Response → string)
    (response_get : Response → string → option string)
    (build : nat → string → string → option string → bool
             → Z * string * Response)
    app_entry branch clean workflow_id workflows calls,
    (build calls (slug app_entry) workflow_id branch clean).1.1 = 201%Z →
    response_get (build calls (slug app_entry) workflow_id branch clean).2
      "build_number" = None →
    trigger_workflows response_str response_get build
      app_entry branch clean (workflow_id :: workflows) calls =
    ([Echo ("Triggering " +:+ workflow_id +:+ " ... ") false false;
      Build (slug app_entry) workflow_id branch clean],
     inl (KeyError "build_number")).
Proof.
  intros Response response_str response_get build
    app_entry branch clean workflow_id workflows calls Hstatus Hmissing.
  unfold trigger_workflows. cbn [for_]. unfold trigger_workflow, getitem.
  destruct (build calls (slug app_entry) workflow_id branch clean)
    as [[status_code reason] response].
  simpl in Hstatus, Hmissing. subst status_code. by rewrite Hmissing.
Qed.

Lemma trigger_success_body_without_build_number_witness :
  trigger_workflows (λ _, "{}") (λ (r : gmap string string) key, r !! key)
    (λ _ _ _ _ _, (201%Z, "Created", ∅))
    sk_entry None false ["build_sk_apk_staging"; "build_sk_apk_production"] 0 =
  ([Echo "Triggering build_sk_apk_staging ... " false false;
    Build "" "build_sk_apk_staging" None false],
   inl (KeyError "build_number")).
Proof.
  apply (trigger_success_body_without_build_number (λ _, "{}")
           (λ (r : gmap string string) key, r !! key)
           (λ _ _ _ _ _, (201%Z, "Created", ∅))
           sk_entry None false "build_sk_apk_staging"
           ["build_sk_apk_production"] 0); reflexivity.
Defined.

(** ** The memo and download commands *)



Section builds_apk_first.

Variable list_latest_builds :
  nat → string → option string → string → nat → list BuildEntry.

Lemma first_match_app_r {A} (P : A → Prop) l k x :
  first_match P l x → first_match P (l ++ k) x.
Proof.
  intros (l1 & l2 & -> & Hx & Hl1). exists l1, (l2 ++ k).
  by rewrite <- app_assoc.
Qed.

Lemma keeps_first_empty : keeps_first [] ([], ∅).
Proof.
  unfold keeps_first. simpl. split; [constructor|]. split; [|split].
  - intros n. rewrite elem_of_nil. split; [|done].
    intros H. by apply not_elem_of_empty in H.
  - intros n H. by apply elem_of_nil in H.
  - constructor.
Qed.

Lemma keeps_first_step listed entry acc :
  keeps_first listed acc →
  keeps_first (listed ++ [entry])
    (if decide (build_num entry ∈ acc.2) then acc
     else (acc.1 ++ [entry], acc.2 ∪ {[build_num entry]})).
Proof.
  destruct acc as [build_entries build_num_set].
  intros (Hsub & Hset & Hall & Hfirst). unfold keeps_first. simpl in *.
  case_decide as Hin; simpl.
  - split; [by apply sublist_inserts_r|]. split; [done|]. split.
    + intros n. rewrite fmap_app, elem_of_app. simpl.
      rewrite list_elem_of_singleton.
      intros [?| ->]; [by apply Hall | by apply Hset].
    + eapply Forall_impl; [exact Hfirst|]. intros e. apply first_match_app_r.
  - split; [by apply sublist_app|]. split; [|split].
    + intros n.
      rewrite elem_of_union, elem_of_singleton, fmap_app, elem_of_app, Hset.
      simpl. by rewrite list_elem_of_singleton.
    + intros n. rewrite !fmap_app, !elem_of_app. simpl.
      rewrite list_elem_of_singleton.
      intros [?| ->]; [left; by apply Hall | by right].
    + apply Forall_app. split.
      * eapply Forall_impl; [exact Hfirst|]. intros e.
        apply first_match_app_r.
      * constructor; [|constructor]. exists listed, []. repeat split.
        apply Forall_forall. intros x Hx Heq. apply Hin, Hset, Hall.
        rewrite <- Heq. by apply list_elem_of_fmap_2.
Qed.

Lemma add_new_builds_keeps_first entries listed acc :
  keeps_first listed acc →
  ∃ acc', add_new_builds entries acc = ([], inr acc') ∧
          keeps_first (listed ++ entries) acc'.
Proof.
  unfold add_new_builds. revert listed acc.
  induction entries as [|entry entries IH]; intros listed acc Hacc.
  - exists acc. by rewrite app_nil_r.
  - cbn [for_]. destruct acc as [build_entries build_num_set].
    pose proof (keeps_first_step _ entry _ Hacc) as Hstep. simpl in Hstep.
    destruct (decide (build_num entry ∈ build_num_set));
      destruct (IH _ _ Hstep) as (acc' & E & Hacc');
      exists acc'; rewrite <- app_assoc in Hacc'; (split; [|done]);
      unfold ret at 1; by rewrite bind_returned, E.
Qed.

Lemma latest_builds_keeps_first app_entry git_branch workflows listed st :
  keeps_first listed st.2 →
  ∃ st',
    (latest_builds list_latest_builds app_entry git_branch workflows st).2 =
      inr st' ∧
    keeps_first
      (listed ++ listed_builds list_latest_builds (app_code app_entry)
                   git_branch workflows st.1) st'.2.
Proof.
  unfold latest_builds. revert listed st.
  induction workflows as [|workflow workflows IH]; intros listed st Hst.
  - exists st. by rewrite app_nil_r.
  - cbn [for_ listed_builds].
    destruct (add_new_builds_keeps_first
                (list_latest_builds st.1 (app_code app_entry) git_branch
                   workflow 1) listed st.2 Hst) as (acc & E & Hacc).
    destruct (IH _ (S st.1, acc) Hacc) as (st' & E' & Hst').
    exists st'. rewrite app_assoc. split; [|done].
    unfold emit. rewrite bind_returned, E, bind_returned.
    cbn [ret fst snd app]. rewrite bind_returned. cbn [snd]. exact E'.
Qed.

End builds_apk_first.

(** X16: without explicit build numbers, the list [builds_apk] assembles is
    taken, in order, from what the index lists for the selected workflows;
    it loses no build number that was listed, and of several listed entries
    with one build number it keeps the first. *)
Theorem builds_apk_keeps_first_of_each_build_number :
  ∀ (list_latest_builds :
       nat → string → option string → string → nat → list BuildEntry)
    (fetch_builds : string → list Z → list BuildEntry) self app_entry,
    let listed := listed_builds list_latest_builds (app_code app_entry)
                    (_branch self) (_workflows self) 0 in
    ∃ build_entries,
      (builds_apk_entries list_latest_builds fetch_builds self app_entry []).2
        = inr build_entries ∧
      build_entries `sublist_of` listed ∧
      (∀ n, n ∈ build_num <$> listed → n ∈ build_num <$> build_entries) ∧
      Forall (λ e, first_match (λ x, build_num x = build_num e) listed e)
        build_entries.
Proof.
  intros list_latest_builds fetch_builds self app_entry listed.
  destruct (latest_builds_keeps_first list_latest_builds app_entry
              (_branch self) (_workflows self) [] (0, ([], ∅))
              keeps_first_empty) as (st' & E & Hsub & _ & Hall & Hfirst).
  exists st'.2.1. split; [|by repeat split].
  unfold builds_apk_entries.
  destruct (latest_builds _ _ _ _ _) as [tr r]. simpl in E. subst r.
  by rewrite bind_returned.
Qed.

(** ** The download loop *)

Section download_loop.

Import download.

Variable fetch_apk : string → Z → ArtifactEntry.
Variable http_get : nat → string → Response.
Variable path_join : string → string → string.

Abbreviation path_of output app_code :=
  (output_file fetch_apk path_join output app_code).
Abbreviation answer calls app_code build_entry :=
  (http_get calls
     (download_url (fetch_apk app_code (build_num build_entry)))).

Lemma foldl_write_chunk chunks written n :
  foldl write_chunk (written, n) chunks =
  (written ++ concat chunks, (n + Z.of_nat (length (concat chunks)))%Z).
Proof.
  revert written n. induction chunks as [|chunk chunks IH]; intros written n.
  - simpl. by rewrite app_nil_r, Z.add_0_r.
  - cbn [foldl concat]. destruct chunk as [|b chunk].
    + simpl. apply IH.
    + unfold write_chunk at 2. cbn [fst snd]. rewrite IH.
      rewrite <- app_assoc, (length_app (b :: chunk)). f_equal. lia.
Qed.

Lemma download_one_files calls output app_code build_entry st p :
  path_of output app_code build_entry ≠ p →
  files (download_one fetch_apk http_get path_join
           calls output app_code build_entry st).1 !! p = files st !! p.
Proof.
  intros Hp. unfold download_one.
  destruct (status_ok _); simpl; [|done].
  destruct (interrupted _); simpl; by rewrite lookup_insert_ne.
Qed.

Lemma download_all_files calls output app_code build_entries st p :
  Forall (λ b, path_of output app_code b ≠ p) build_entries →
  files (download_all fetch_apk http_get path_join
           calls output app_code build_entries st).1 !! p = files st !! p.
Proof.
  revert calls st.
  induction build_entries as [|b build_entries IH]; intros calls st Hp;
    [done|].
  inversion Hp as [|? ? Hb Hrest]; subst. cbn [download_all].
  pose proof (download_one_files calls output app_code b st p Hb) as H1.
  destruct (download_one _ _ _ _ _ _ _ _) as [st' [e|]]; [done|].
  by rewrite IH.
Qed.

Lemma download_one_ok calls output app_code build_entry st :
  status_ok (answer calls app_code build_entry) = true →
  interrupted (answer calls app_code build_entry) = false →
  ∃ st',
    download_one fetch_apk http_get path_join
      calls output app_code build_entry st = (st', None) ∧
    files st' !! path_of output app_code build_entry =
      Some (concat (chunks (answer calls app_code build_entry))).
Proof.
  intros Hok Hend. unfold download_one. rewrite Hok, Hend. simpl.
  eexists. split; [reflexivity|]. simpl.
  rewrite foldl_write_chunk. simpl. apply lookup_insert_eq.
Qed.

Lemma download_all_ok calls output app_code build_entries st :
  (∀ i b, build_entries !! i = Some b →
          status_ok (answer (calls + i) app_code b) = true ∧
          interrupted (answer (calls + i) app_code b) = false) →
  NoDup (path_of output app_code <$> build_entries) →
  (download_all fetch_apk http_get path_join
     calls output app_code build_entries st).2 = None ∧
  ∀ i b, build_entries !! i = Some b →
    files (download_all fetch_apk http_get path_join
             calls output app_code build_entries st).1
      !! path_of output app_code b =
    Some (concat (chunks (answer (calls + i) app_code b))).
Proof.
  revert calls st.
  induction build_entries as [|b build_entries IH]; intros calls st Hall Hnd.
  - split; [done|]. intros i b' H. done.
  - rewrite fmap_cons in Hnd. apply NoDup_cons in Hnd as [Hfresh Hnd].
    destruct (Hall 0 b eq_refl) as [Hok Hend]. rewrite Nat.add_0_r in Hok, Hend.
    destruct (download_one_ok calls output app_code b st Hok Hend)
      as (st' & E & Hfile).
    cbn [download_all]. rewrite E.
    destruct (IH (S calls) st') as [Hnone Hfiles]; [|done|].
    { intros i b' Hb'.
      replace (S calls + i) with (calls + S i) by lia. by apply Hall. }
    split; [done|]. intros [|i] b' Hb'.
    + injection Hb' as <-. rewrite Nat.add_0_r, download_all_files; [done|].
      apply Forall_forall. intros b' Hin Heq. apply Hfresh.
      rewrite <- Heq. by apply list_elem_of_fmap_2.
    + replace (calls + S i) with (S calls + i) by lia. by apply Hfiles.
Qed.

Lemma download_all_failed calls output app_code build_entries st st' e :
  download_all fetch_apk http_get path_join
    calls output app_code build_entries st = (st', Some e) →
  ∃ done b rest st_done,
    build_entries = done ++ b :: rest ∧
    download_all fetch_apk http_get path_join
      calls output app_code done st = (st_done, None) ∧
    download_one fetch_apk http_get path_join
      (calls + length done) output app_code b st_done = (st', Some e).
Proof.
  revert calls st.
  induction build_entries as [|b build_entries IH]; intros calls st H;
    [done|].
  cbn [download_all] in H.
  destruct (download_one _ _ _ calls output app_code b st)
    as [st1 [e1|]] eqn:E1.
  - injection H as <- <-. exists [], b, build_entries, st.
    simpl. by rewrite Nat.add_0_r.
  - destruct (IH _ _ H) as (done & b' & rest & st_done & -> & Hdone & Hfail).
    exists (b :: done), b', rest, st_done. split; [done|]. split.
    + cbn [download_all]. by rewrite E1.
    + simpl. by replace (calls + S (length done)) with
        (S calls + length done) by lia.
Qed.

End download_loop.

(** X17: one download writes to the output file exactly the bytes it
    receives, in order, replacing what the file held; empty chunks change
    nothing, and the progress bar ends at the number of bytes written,
    whatever size the index declared.  When the stream breaks, the file keeps
    the bytes received so far; when the host answers with an error status,
    no file is touched and no bar is shown. *)
Theorem download_one_writes_what_it_receives :
  ∀ (fetch_apk : string → Z → download.ArtifactEntry)
    (http_get : nat → string → download.Response)
    (path_join : string → string → string)
    calls output app_code build_entry st,
    let artifact := fetch_apk app_code (build_num build_entry) in
    let response := http_get calls (download.download_url artifact) in
    let result := download.download_one fetch_apk http_get path_join
                    calls output app_code build_entry st in
    if download.status_ok response then
      download.files result.1 !! path_join output (download.name artifact) =
        Some (concat (download.chunks response)) ∧
      download.bars result.1 =
        download.bars st ++
        [(download.byte_size artifact,
          Z.of_nat (length (concat (download.chunks response))))] ∧
      result.2 =
        (if download.interrupted response
         then Some (download.ChunkedEncodingError
                      (download.download_url artifact))
         else None)
    else
      download.files result.1 = download.files st ∧
      download.bars result.1 = download.bars st ∧
      result.2 = Some (download.HTTPError (download.download_url artifact)).
Proof.
  intros fetch_apk http_get path_join calls output app_code build_entry st
    artifact response result.
  unfold result, download.download_one. fold artifact. fold response.
  destruct (download.status_ok response); simpl; [|done].
  rewrite foldl_write_chunk.
  destruct (download.interrupted response); simpl;
    by rewrite lookup_insert_eq.
Qed.

(** X18: the download loop changes no file but the output files of the
    builds it is given. *)
Theorem download_all_touches_output_files_only :
  ∀ (fetch_apk : string → Z → download.ArtifactEntry)
    (http_get : nat → string → download.Response)
    (path_join : string → string → string)
    calls output app_code build_entries st p,
    Forall (λ b, download.output_file fetch_apk path_join output app_code b
                 ≠ p) build_entries →
    download.files
      (download.download_all fetch_apk http_get path_join
         calls output app_code build_entries st).1 !! p =
    download.files st !! p.
Proof. intros. by apply download_all_files. Qed.

Lemma download_all_touches_output_files_only_witness :
  Forall (λ b, download.output_file sample_fetch_apk sample_path_join
                 "out" "sk" b ≠ "notes.txt") [build_one; build_two] ∧
  download.files
    (download.download_all sample_fetch_apk sample_http_ok sample_path_join
       0 "out" "sk" [build_one; build_two] sample_disk).1 !! "notes.txt" =
  download.files sample_disk !! "notes.txt".
Proof.
  assert (H : Forall (λ b, download.output_file sample_fetch_apk
                             sample_path_join "out" "sk" b ≠ "notes.txt")
                [build_one; build_two]).
  { repeat constructor; by vm_compute. }
  split; [exact H|].
  exact (download_all_touches_output_files_only sample_fetch_apk
           sample_http_ok sample_path_join 0 "out" "sk"
           [build_one; build_two] sample_disk "notes.txt" H).
Defined.

(** X19: when every request is answered without error and to the end, and
    the builds have pairwise different output files, the download loop ends
    normally and every output file holds the bytes of its own build. *)
Theorem download_all_stores_every_build :
  ∀ (fetch_apk : string → Z → download.ArtifactEntry)
    (http_get : nat → string → download.Response)
    (path_join : string → string → string)
    calls output app_code build_entries st,
    (∀ i b, build_entries !! i = Some b →
       download.status_ok
         (http_get (calls + i)
            (download.download_url (fetch_apk app_code (build_num b))))
         = true ∧
       download.interrupted
         (http_get (calls + i)
            (download.download_url (fetch_apk app_code (build_num b))))
         = false) →
    NoDup (download.output_file fetch_apk path_join output app_code
             <$> build_entries) →
    (download.download_all fetch_apk http_get path_join
       calls output app_code build_entries st).2 = None ∧
    ∀ i b, build_entries !! i = Some b →
      download.files
        (download.download_all fetch_apk http_get path_join
           calls output app_code build_entries st).1
        !! download.output_file fetch_apk path_join output app_code b =
      Some (concat (download.chunks
              (http_get (calls + i)
                 (download.download_url
                    (fetch_apk app_code (build_num b)))))).
Proof. intros. by apply download_all_ok. Qed.

Lemma download_all_stores_every_build_witness :
  (download.download_all sample_fetch_apk sample_http_ok sample_path_join
     0 "out" "sk" [build_one; build_two] sample_disk).2 = None ∧
  ∀ i b, [build_one; build_two] !! i = Some b →
    download.files
      (download.download_all sample_fetch_apk sample_http_ok sample_path_join
         0 "out" "sk" [build_one; build_two] sample_disk).1
      !! download.output_file sample_fetch_apk sample_path_join "out" "sk" b =
    Some (concat (download.chunks
            (sample_http_ok (0 + i)
               (download.download_url
                  (sample_fetch_apk "sk" (build_num b)))))).
Proof.
  apply (download_all_stores_every_build sample_fetch_apk sample_http_ok
           sample_path_join 0 "out" "sk" [build_one; build_two] sample_disk).
  - intros [|[|i]] b Hb; by destruct (0 + _).
  - apply (bool_decide_unpack _). by vm_compute.
Defined.

(** X20: a failed download ends the loop: the state the loop ends in is the
    state right after the failing build, and the builds after it are not
    downloaded. *)
Theorem download_all_stops_at_first_failure :
  ∀ (fetch_apk : string → Z → download.ArtifactEntry)
    (http_get : nat → string → download.Response)
    (path_join : string → string → string)
    calls output app_code build_entries st st' e,
    download.download_all fetch_apk http_get path_join
      calls output app_code build_entries st = (st', Some e) →
    ∃ done b rest st_done,
      build_entries = done ++ b :: rest ∧
      download.download_all fetch_apk http_get path_join
        calls output app_code done st = (st_done, None) ∧
      download.download_one fetch_apk http_get path_join
        (calls + length done) output app_code b st_done = (st', Some e).
Proof. intros. by eapply download_all_failed. Qed.

Lemma download_all_stops_at_first_failure_witness :
  ∃ done b rest st_done,
    [build_one; build_two; build_one] = done ++ b :: rest ∧
    download.download_all sample_fetch_apk sample_http_get sample_path_join
      0 "out" "sk" done sample_disk = (st_done, None) ∧
    download.download_one sample_fetch_apk sample_http_get sample_path_join
      (0 + length done) "out" "sk" b st_done =
      ((download.download_all sample_fetch_apk sample_http_get
          sample_path_join 0 "out" "sk" [build_one; build_two; build_one]
          sample_disk).1,
       Some (download.HTTPError "https://host/two")).
Proof.
  apply (download_all_stops_at_first_failure sample_fetch_apk sample_http_get
           sample_path_join 0 "out" "sk" [build_one; build_two; build_one]
           sample_disk).
  by vm_compute.
Defined.

(** ** The memo block of the build details *)

Section memo_lines.

#[local] Arguments String.append !_ _ / : simpl nomatch.

Implicit Types (s a b : string) (sep : ascii).

Lemma split_nonempty sep s : ∃ piece pieces, PyText.split sep s = piece :: pieces.
Proof.
  induction s as [|c s (piece & pieces & IH)]; simpl; [by eexists _, _|].
  destruct (Ascii.eqb c sep); [by eexists _, _|]. rewrite IH. by eexists _, _.
Qed.

Lemma split_free sep s : free_of sep s → PyText.split sep s = [s].
Proof.
  unfold free_of. induction s as [|c s IH]; simpl; [done|]. intros Hfree.
  destruct (Ascii.eqb_spec c sep) as [->|Hne]; [tauto|].
  rewrite IH; [done | tauto].
Qed.

Lemma split_append sep a b :
  free_of sep a →
  PyText.split sep (a +:+ String sep b) = a :: PyText.split sep b.
Proof.
  unfold free_of. induction a as [|c a IH]; simpl; intros Hfree.
  - by rewrite Ascii.eqb_refl.
  - destruct (Ascii.eqb_spec c sep) as [->|Hne]; [tauto|].
    rewrite IH; [done | tauto].
Qed.

Lemma split_pieces_free sep s : Forall (free_of sep) (PyText.split sep s).
Proof.
  unfold free_of. induction s as [|c s IH]; simpl.
  - constructor; [by intros []|constructor].
  - destruct (Ascii.eqb_spec c sep) as [->|Hne].
    + constructor; [by intros []|done].
    + destruct (PyText.split sep s) as [|piece pieces].
      * constructor; [simpl; tauto|constructor].
      * inversion IH; subst. constructor; [|done]. simpl. tauto.
Qed.

Lemma free_of_append sep a b :
  free_of sep a → free_of sep b → free_of sep (a +:+ b).
Proof.
  unfold free_of. induction a as [|c a IH]; simpl; [done|]. tauto.
Qed.

Lemma join_cons separator piece piece' pieces :
  PyText.join separator (piece :: piece' :: pieces) =
  piece +:+ separator +:+ PyText.join separator (piece' :: pieces).
Proof. done. Qed.

Lemma split_join_indented indent prefix line lines :
  free_of PyText.LF indent → free_of PyText.LF prefix →
  Forall (free_of PyText.LF) (line :: lines) →
  PyText.split PyText.LF
    (prefix +:+ PyText.join (String PyText.LF indent) (line :: lines)) =
  (prefix +:+ line) :: map (String.append indent) lines.
Proof.
  intros Hindent. revert prefix line.
  induction lines as [|line' lines IH]; intros prefix line Hprefix Hlines.
  - simpl. apply split_free, free_of_append; [done|]. by inversion Hlines.
  - inversion Hlines as [|? ? Hline Hrest]; subst.
    rewrite join_cons. cbn [map].
    change (String PyText.LF indent +:+ ?x)
      with (String PyText.LF (indent +:+ x)).
    rewrite <- append_assoc, split_append by by apply free_of_append.
    by rewrite IH.
Qed.

End memo_lines.

(** X21: [build_details] prints nothing for an empty memo; a non-empty memo
    is printed as one text whose lines are the lines of the memo, the first
    after the label "Memo:" padded to eleven columns and every other one
    after eleven spaces, so that all lines of the memo start in the same
    column. *)
Theorem build_details_memo_lines :
  build_details_memo "" = [] ∧
  ∀ c memo,
    ∃ printed line lines,
      build_details_memo (String c memo) = [printed] ∧
      PyText.split PyText.LF (String c memo) = line :: lines ∧
      PyText.split PyText.LF printed =
        ("Memo:      " +:+ line) :: map (String.append "           ") lines.
Proof.
  split; [done|]. intros c memo.
  destruct (split_nonempty PyText.LF (String c memo))
    as (line & lines & Hsplit).
  eexists _, line, lines. split; [reflexivity|]. split; [done|].
  rewrite Hsplit. apply split_join_indented.
  - unfold free_of. simpl. intuition discriminate.
  - unfold free_of. simpl. intuition discriminate.
  - rewrite <- Hsplit. apply split_pieces_free.
Qed.

(** ** Dispatch in the image tool *)

Lemma cli_registered name :
  is_Some (imgops.Group_get_command (imgops.group imgops.cli) name) ↔
  name ∈ ["load"; "save"; "clone"; "resize"; "pad"; "alpha"; "dilate";
          "erode"; "blur"; "subtract"].
Proof.
  unfold imgops.Group_get_command, imgops.cli. cbn [imgops.group imgops.commands].
  cbn [list_to_map foldr fst snd]. split.
  - rewrite !lookup_insert, lookup_empty.
    repeat case_decide; subst; intros [op Hop]; try discriminate Hop;
      rewrite !elem_of_cons; tauto.
  - rewrite !elem_of_cons, elem_of_nil.
    intros H. repeat (destruct H as [->|H]; [eexists; by vm_compute|]).
    done.
Qed.

(** X22: the image tool dispatches exactly eleven names, the ten registered
    commands and the alias "extract-alpha"; every other name, such as the
    function name "extract_alpha", finds no command; and the alias map hides
    no registered command. *)
Theorem imgops_dispatched_names :
  ∀ cmd_name,
    (is_Some (imgops.get_command imgops.cli cmd_name) ↔
     cmd_name ∈ dispatched_names) ∧
    (is_Some (imgops.Group_get_command (imgops.group imgops.cli) cmd_name) →
     imgops.get_command imgops.cli cmd_name =
     imgops.Group_get_command (imgops.group imgops.cli) cmd_name).
Proof.
  intros cmd_name. unfold imgops.get_command.
  destruct (decide (cmd_name = "extract-alpha")) as [->|Hne].
  - split.
    + split; [intros _; by vm_compute; repeat constructor|].
      intros _. eexists. by vm_compute.
    + intros [op Hop]. by vm_compute in Hop.
  - assert (imgops._alias_map imgops.cli !! cmd_name = None) as ->.
    { unfold imgops.cli. simpl. by apply lookup_singleton_ne. }
    simpl. split; [|done]. rewrite cli_registered. unfold dispatched_names.
    rewrite !elem_of_cons, !elem_of_nil. tauto.
Qed.
